(** * IAW notebooks: polygon extraction, cropping, keyword filter, table builder

    A shallow embedding of the helper functions and pipeline cells of the two
    notebooks [annotation-table.ipynb] and [keyword-search.ipynb], with the
    properties of their specification stated and settled against it.

    Conventions of the embedding:
    - a Python [str] is a [string] whose characters are code points below 256;
    - a Python call that may raise returns a [result]: [Ok v] or [Raise e],
      [e] being the name of the exception class;
    - a JSON object whose shape is fixed by the IAW API is a record, an
      optional key is an [option] field; the [images] dictionary of the
      keyword-search notebook, whose keys are computed at run time, is a
      [gmap];
    - OpenCV's rasteriser, decoder and JPEG encoder are not code of the
      notebooks: the functions using them take them as section variables;
      the IAW API and the IIIF image server are a record of the answers to
      the calls the notebooks make. *)

From Stdlib Require Import ZArith List Ascii Bool Lia DecimalString DecimalPos.
From stdpp Require Import gmap strings.
Import ListNotations.

Local Open Scope Z_scope.

(** ** Exceptions as results *)

Inductive result (A : Type) : Type :=
| Ok (a : A)
| Raise (exc : string).
Arguments Ok {A} a.
Arguments Raise {A} exc.

#[export] Instance result_ret : MRet result := fun A a => Ok a.
#[export] Instance result_bind : MBind result := fun A B f r =>
  match r with
  | Ok a => f a
  | Raise e => Raise e
  end.

(** ** Python string primitives *)

Module Str.

(** [s.split(sep)] for a separator of one character. *)
Fixpoint split (sep : ascii) (s : string) : list string :=
  match s with
  | EmptyString => [EmptyString]
  | String c s' =>
      if Ascii.eqb c sep then EmptyString :: split sep s'
      else match split sep s' with
           | w :: ws => String c w :: ws
           | [] => [String c EmptyString]
           end
  end.

(** [sep.join(parts)]. *)
Fixpoint join (sep : string) (parts : list string) : string :=
  match parts with
  | [] => EmptyString
  | [p] => p
  | p :: ps => p +:+ sep +:+ join sep ps
  end.

(** [needle in hay]. *)
Fixpoint contains (needle hay : string) : bool :=
  String.prefix needle hay ||
  match hay with
  | EmptyString => false
  | String _ t => contains needle t
  end.

(** [c.lower()] on code points below 256: A-Z and the Latin-1 capitals
    0xC0-0xDE (the multiplication sign 0xD7 apart) move up by 32. *)
Definition lower_char (c : ascii) : ascii :=
  let n := N_of_ascii c in
  if ((65 <=? n) && (n <=? 90) ||
      (192 <=? n) && (n <=? 222) && negb (n =? 215))%N
  then ascii_of_N (n + 32) else c.

Fixpoint lower (s : string) : string :=
  match s with
  | EmptyString => EmptyString
  | String c t => String (lower_char c) (lower t)
  end.

(** The character [c] occurs in [s]. *)
Fixpoint mem (c : ascii) (s : string) : bool :=
  match s with
  | EmptyString => false
  | String d t => Ascii.eqb d c || mem c t
  end.

(** [c.isspace()] on code points below 256. *)
Definition is_whitespace (c : ascii) : bool :=
  let n := N_of_ascii c in
  ((9 <=? n) && (n <=? 13) || (28 <=? n) && (n <=? 32) ||
   (n =? 133) || (n =? 160))%N.

(** [s.split()]: the maximal runs of characters that are not white space. *)
Fixpoint words (s : string) : list string :=
  match s with
  | EmptyString => []
  | String c t =>
      if is_whitespace c then words t
      else match t with
           | EmptyString => [String c EmptyString]
           | String d _ =>
               if is_whitespace d then String c EmptyString :: words t
               else match words t with
                    | w :: ws => String c w :: ws
                    | [] => [String c EmptyString]
                    end
           end
  end.

(** No character of [s] satisfies [p]. *)
Fixpoint none (p : ascii -> bool) (s : string) : bool :=
  match s with
  | EmptyString => true
  | String c t => negb (p c) && none p t
  end.

End Str.

(** ** Python's [int(float(s))] *)

Module PyFloat.

(** A binary64 value: [(-1)^neg * m * 2^e], an infinity or a NaN. *)
Inductive float : Type :=
| Finite (neg : bool) (m e : Z)
| Inf (neg : bool)
| NaN.

Definition is_digit (c : ascii) : bool :=
  let n := N_of_ascii c in ((48 <=? n) && (n <=? 57))%N.

(** The white space [float] strips at both ends: tab to carriage return,
    space, and the two Latin-1 spaces U+0085 and U+00A0. *)
Definition is_space (c : ascii) : bool :=
  let n := N_of_ascii c in
  ((9 <=? n) && (n <=? 13) || (n =? 32) || (n =? 133) || (n =? 160))%N.

Fixpoint lstrip (s : string) : string :=
  match s with
  | String c t => if is_space c then lstrip t else s
  | EmptyString => EmptyString
  end.

Fixpoint rstrip (s : string) : string :=
  match s with
  | EmptyString => EmptyString
  | String c t =>
      match rstrip t with
      | EmptyString => if is_space c then EmptyString else String c EmptyString
      | t' => String c t'
      end
  end.

(** An underscore is dropped when it stands between two digits, and is an
    error anywhere else. [prev] tells whether the previous character was a
    digit. *)
Fixpoint drop_underscores (prev : bool) (s : string) : option string :=
  match s with
  | EmptyString => Some EmptyString
  | String c t =>
      if Ascii.eqb c "_" then
        match t with
        | String d _ =>
            if prev && is_digit d then drop_underscores false t else None
        | EmptyString => None
        end
      else option_map (String c) (drop_underscores (is_digit c) t)
  end.

Fixpoint take_digits (s : string) : string * string :=
  match s with
  | String c t =>
      if is_digit c then let '(d, r) := take_digits t in (String c d, r)
      else (EmptyString, s)
  | EmptyString => (EmptyString, EmptyString)
  end.

Fixpoint digits_value (acc : Z) (s : string) : Z :=
  match s with
  | EmptyString => acc
  | String c t => digits_value (10 * acc + (Z.of_N (N_of_ascii c) - 48)) t
  end.

Definition take_sign (s : string) : bool * string :=
  match s with
  | String "-" t => (true, t)
  | String "+" t => (false, t)
  | _ => (false, s)
  end.

(** A decimal numeral [digits [. digits] [e [sign] digits]] with a digit in
    its mantissa, read as [(M, E)] for the value [M * 10^E]. *)
Definition parse_decimal (s : string) : option (Z * Z) :=
  let '(ip, r1) := take_digits s in
  let '(fp, r2) :=
    match r1 with
    | String "." r => take_digits r
    | _ => (EmptyString, r1)
    end in
  let mant := digits_value 0 (ip +:+ fp) in
  let k := Z.of_nat (String.length fp) in
  if (String.length ip + String.length fp =? 0)%nat then None
  else match r2 with
       | EmptyString => Some (mant, - k)
       | String c r3 =>
           if Ascii.eqb c "e" || Ascii.eqb c "E" then
             let '(eneg, r4) := take_sign r3 in
             let '(ed, r5) := take_digits r4 in
             match ed, r5 with
             | String _ _, EmptyString =>
                 let ev := digits_value 0 ed in
                 Some (mant, (if eneg then - ev else ev) - k)
             | _, _ => None
             end
           else None
       end.

(** Round the rational [p / q], with [0 <= p] and [0 < q], to the nearest
    binary64 value, ties to even: [e] is the binary exponent of [p / q], [u]
    the exponent of the last place kept (52 below [e], and never below that
    of the subnormals); a result of [2^1024] or more is an infinity. *)
Definition round_binary64 (neg : bool) (p q : Z) : float :=
  if p =? 0 then Finite neg 0 0
  else
    let e0 := Z.log2 p - Z.log2 q in
    let below :=
      if 0 <=? e0 then p <? q * 2 ^ e0 else p * 2 ^ (- e0) <? q in
    let e := if below then e0 - 1 else e0 in
    let u := Z.max (e - 52) (-1074) in
    let num := if 0 <=? u then p else p * 2 ^ (- u) in
    let den := if 0 <=? u then q * 2 ^ u else q in
    let fl := num / den in
    let r := num mod den in
    let m :=
      if 2 * r <? den then fl
      else if den <? 2 * r then fl + 1
      else if Z.even fl then fl else fl + 1 in
    if (971 <? u) || (m =? 2 ^ 53) && (u =? 971) then Inf neg
    else Finite neg m u.

Definition decimal_to_float (neg : bool) (mant e10 : Z) : float :=
  if 0 <=? e10 then round_binary64 neg (mant * 10 ^ e10) 1
  else round_binary64 neg mant (10 ^ (- e10)).

(** [float(s)] for a string [s]. *)
Definition float_of_string (s : string) : result float :=
  let s := rstrip (lstrip s) in
  match drop_underscores false s with
  | None => Raise "ValueError"
  | Some s =>
      let '(neg, body) := take_sign s in
      let low := Str.lower body in
      if String.eqb low "inf" || String.eqb low "infinity" then Ok (Inf neg)
      else if String.eqb low "nan" then Ok NaN
      else match parse_decimal body with
           | Some (mant, e10) => Ok (decimal_to_float neg mant e10)
           | None => Raise "ValueError"
           end
  end.

(** [int(x)] for a float [x]: truncation towards zero. *)
Definition int_of_float (x : float) : result Z :=
  match x with
  | Finite neg m e =>
      let a := if 0 <=? e then m * 2 ^ e else m / 2 ^ (- e) in
      Ok (if neg then - a else a)
  | Inf _ => Raise "OverflowError"
  | NaN => Raise "ValueError"
  end.

Definition int_float (s : string) : result Z :=
  x ← float_of_string s; int_of_float x.

End PyFloat.

(** ** Polygon extractor *)

(** [x, y = point.split(',')]: exactly two parts, or a [ValueError]. *)
Definition unpack2 (parts : list string) : result (string * string) :=
  match parts with
  | [x; y] => Ok (x, y)
  | _ => Raise "ValueError"
  end.

(** The body of the [for point in ...] loop: one point is parsed and
    appended. *)
Definition parse_point (point : string) : result (Z * Z) :=
  '(x, y) ← unpack2 (Str.split "," point);
  px ← PyFloat.int_float x;
  py ← PyFloat.int_float y;
  Ok (px, py).

Fixpoint parse_points (tokens : list string) (points : list (Z * Z))
  : result (list (Z * Z)) :=
  match tokens with
  | [] => Ok points
  | point :: rest =>
      p ← parse_point point;
      parse_points rest (points ++ [p])
  end.

(** The double quote character. *)
Definition dquote : ascii := ascii_of_N 34.

Definition extract_polygon_points (selector : string) : result (list (Z * Z)) :=
  match Str.split dquote selector with
  | _ :: selector_value :: _ =>
      parse_points (Str.split " " selector_value) []
  | _ => Raise "IndexError"
  end.

(** ** Images *)

(** A NumPy array of three dimensions (rows, columns, channels) of unsigned
    bytes: its [shape], and its entries as nested lists. The shape is kept
    apart from the entries since an array without rows still has a width
    and a channel count. *)
Record ndarray : Type := NdArray {
  shape : nat * nat * nat;
  data : list (list (list Z))
}.

(** [np.zeros(shape, dtype=np.uint8)]. *)
Definition zeros (s : nat * nat * nat) : ndarray :=
  let '(h, w, c) := s in NdArray s (replicate h (replicate w (replicate c 0))).

(** [cv2.bitwise_and(a, b)] on arrays of one shape. *)
Definition bitwise_and (a b : ndarray) : ndarray :=
  NdArray (shape a)
    (zip_with (zip_with (zip_with Z.land)) (data a) (data b)).

(** [l[lo:hi]] for indices that are not negative. *)
Definition slice {A} (lo hi : nat) (l : list A) : list A :=
  firstn (hi - lo) (skipn lo l).

Definition slice_length (lo hi n : nat) : nat :=
  (Nat.min hi n - Nat.min lo n)%nat.

(** [a[y0:y1, x0:x1]]. *)
Definition slice2 (a : ndarray) (y0 y1 x0 x1 : nat) : ndarray :=
  let '(h, w, c) := shape a in
  NdArray (slice_length y0 y1 h, slice_length x0 x1 w, c)
          (map (slice x0 x1) (slice y0 y1 (data a))).

(** The indices of the entries that are not zero, in row-major order:
    [np.where(a != 0)], as a list of triples (row, column, channel). *)
Definition where_nonzero (a : ndarray) : list (nat * nat * nat) :=
  flat_map (fun '(y, row) =>
    flat_map (fun '(x, px) =>
      flat_map (fun '(c, v) => if v =? 0 then [] else [(y, x, c)])
               (imap pair px))
      (imap pair row))
    (imap pair (data a)).

(** [np.where(a != 0)] itself: the three arrays of the row, column and
    channel indices. *)
Definition np_where_nonzero (a : ndarray) : list nat * list nat * list nat :=
  let idx := where_nonzero a in
  (map (fun i => fst (fst i)) idx, map (fun i => snd (fst i)) idx,
   map snd idx).

(** The entry of row [y], column [x] and channel [c], when there is one. *)
Definition entry (a : ndarray) (y x c : nat) : option Z :=
  row ← data a !! y; px ← row !! x; px !! c.

(** The array has no entry other than zero. *)
Definition blank (a : ndarray) : Prop :=
  forall y x c v, entry a y x c = Some v -> v = 0.

(** [np.min(l)] and [np.max(l)]: a [ValueError] on an empty array. *)
Definition np_min (l : list nat) : result nat :=
  match l with
  | [] => Raise "ValueError"
  | a :: t => Ok (fold_left Nat.min t a)
  end.

Definition np_max (l : list nat) : result nat :=
  match l with
  | [] => Raise "ValueError"
  | a :: t => Ok (fold_left Nat.max t a)
  end.

(** ** Cropper *)

Section Cropper.

(** The rasteriser of [cv2.fillPoly] is OpenCV's: [covers h w polys y x]
    tells whether filling the polygons [polys] on an image of [h] rows and
    [w] columns paints the pixel of row [y] and column [x]. *)
Variable covers : nat -> nat -> list (list (Z * Z)) -> nat -> nat -> bool.

(** [cv2.fillPoly(img, pts, color)]: the painted pixels take the colour,
    the others stay. *)
Definition fillPoly (img : ndarray) (pts : list (list (Z * Z)))
    (color : list Z) : ndarray :=
  let '(h, w, _) := shape img in
  NdArray (shape img)
    (imap (fun y row =>
       imap (fun x px => if covers h w pts y x then color else px) row)
       (data img)).

Definition crop_image (image : ndarray) (points : list (Z * Z))
  : result ndarray :=
  (* Create a mask. *)
  let mask := zeros (shape image) in
  let roi_corners := [points] in
  let channel_count := snd (shape image) in
  let ignore_mask_color := replicate channel_count 255 in
  let mask := fillPoly mask roi_corners ignore_mask_color in
  (* Apply the mask. *)
  let masked_image := bitwise_and image mask in
  (* Crop out the blank area. *)
  let '(y, x, _) := np_where_nonzero masked_image in
  y0 ← np_min y;
  y1 ← np_max y;
  x0 ← np_min x;
  x1 ← np_max x;
  Ok (slice2 masked_image y0 y1 x0 x1).

(** The masked image of [crop_image]: the polygon painted white on a black
    mask, and the mask applied to the image. *)
Definition masked (image : ndarray) (points : list (Z * Z)) : ndarray :=
  bitwise_and image
    (fillPoly (zeros (shape image)) [points]
              (replicate (snd (shape image)) 255)).

End Cropper.

(** The crop the specification describes: the bounding box of the entries
    that are not zero, its last row and its last column included. *)
Definition tight_crop (masked_image : ndarray) : result ndarray :=
  let '(y, x, _) := np_where_nonzero masked_image in
  y0 ← np_min y;
  y1 ← np_max y;
  x0 ← np_min x;
  x1 ← np_max x;
  Ok (slice2 masked_image y0 (S y1) x0 (S x1)).

(** *** A rasteriser for the examples

    A pixel is covered when it lies on an edge of a polygon or inside it
    (even-odd rule). On a rectangle with integer corners and sides parallel
    to the axes this is the set of pixels OpenCV paints: the rectangle with
    its four border lines. On other polygons it stands in for OpenCV's
    rasteriser, and the examples use of it only that some pixel is
    painted. *)

Definition on_segment (p a b : Z * Z) : bool :=
  let '(px, py) := p in
  let '(ax, ay) := a in
  let '(bx, by_) := b in
  ((bx - ax) * (py - ay) =? (by_ - ay) * (px - ax)) &&
  (Z.min ax bx <=? px) && (px <=? Z.max ax bx) &&
  (Z.min ay by_ <=? py) && (py <=? Z.max ay by_).

(** The horizontal ray from [p] to the right crosses the edge [a b]. *)
Definition ray_crosses (p a b : Z * Z) : bool :=
  let '(px, py) := p in
  let '(ax, ay) := a in
  let '(bx, by_) := b in
  negb (Bool.eqb (py <? ay) (py <? by_)) &&
  (if ay <? by_
   then (px - ax) * (by_ - ay) <? (py - ay) * (bx - ax)
   else (py - ay) * (bx - ax) <? (px - ax) * (by_ - ay)).

(** The edges of a closed polygon: consecutive vertices, and the last with
    the first. *)
Definition polygon_edges (pts : list (Z * Z)) : list ((Z * Z) * (Z * Z)) :=
  match pts with
  | [] => []
  | p0 :: rest => combine pts (rest ++ [p0])
  end.

Definition in_closed_polygon (p : Z * Z) (pts : list (Z * Z)) : bool :=
  let es := polygon_edges pts in
  existsb (fun e => on_segment p (fst e) (snd e)) es ||
  Nat.odd (length (List.filter (fun e => ray_crosses p (fst e) (snd e)) es)).

Definition closed_polygon_covers (h w : nat) (polys : list (list (Z * Z)))
    (y x : nat) : bool :=
  existsb (in_closed_polygon (Z.of_nat x, Z.of_nat y)) polys.

(** ** Annotations *)

(** A value of the [tag] field. *)
Record tag_value : Type := { term_label : string }.

(** The [fields] object of an annotation. A field is a key that may be
    absent; a present field is given by the list under [en.values], the
    only part of it the notebooks read. *)
Record annotation_fields : Type := {
  title : option (list string);
  tag : option (list tag_value);
  note : option (list string);
  line_color : option (list string)
}.

(** An annotation: [annotation['image_id']],
    [annotation['target']['selector']['value']] and
    [annotation['fields']]. *)
Record annotation : Type := {
  image_id : Z;
  selector : string;
  fields : annotation_fields
}.

(** ** Keyword filter *)

Fixpoint title_loop (keyword : string) (values : list string) : bool :=
  match values with
  | [] => false
  | title_value :: rest =>
      if Str.contains (Str.lower keyword) (Str.lower title_value) then true
      else title_loop keyword rest
  end.

Fixpoint tag_loop (keyword : string) (values : list tag_value) : bool :=
  match values with
  | [] => false
  | tag_value :: rest =>
      if Str.contains (Str.lower keyword) (Str.lower (term_label tag_value))
      then true
      else tag_loop keyword rest
  end.

Definition annotation_contains_keyword (annotation : annotation)
    (keyword : string) : bool :=
  let fields := fields annotation in
  if match title fields with
     | Some values => title_loop keyword values
     | None => false
     end
  then true
  else if match tag fields with
          | Some values => tag_loop keyword values
          | None => false
          end
  then true
  else false.

(** [needle] occurs in [hay]. *)
Definition substring (needle hay : string) : Prop :=
  exists pre post, hay = pre +:+ needle +:+ post.

(** ** Table builder *)

(** The dictionary [table_data]: five lists under five fixed keys. *)
Record table_data : Type := TableData {
  Image : list string;
  Title : list string;
  Tags : list string;
  Notes : list string;
  Line_Color : list string
}.

Definition empty_table : table_data := TableData [] [] [] [] [].

(** A pandas data frame: the column names and the rows. *)
Record data_frame : Type := {
  columns : list string;
  rows : list (list string)
}.

Fixpoint frame_rows (c1 c2 c3 c4 c5 : list string) : list (list string) :=
  match c1, c2, c3, c4, c5 with
  | x1 :: t1, x2 :: t2, x3 :: t3, x4 :: t4, x5 :: t5 =>
      [x1; x2; x3; x4; x5] :: frame_rows t1 t2 t3 t4 t5
  | _, _, _, _, _ => []
  end.

(** [pd.DataFrame(table_data)]: the columns in the order of the keys, a
    [ValueError] when the lists differ in length. *)
Definition DataFrame (t : table_data) : result data_frame :=
  let n := length (Image t) in
  if (length (Title t) =? n)%nat && (length (Tags t) =? n)%nat &&
     (length (Notes t) =? n)%nat && (length (Line_Color t) =? n)%nat
  then Ok {| columns := ["Image"; "Title"; "Tags"; "Notes"; "Line Color"];
             rows := frame_rows (Image t) (Title t) (Tags t) (Notes t)
                                (Line_Color t) |}
  else Raise "ValueError".

(** [str(n)] for an integer. *)
Definition str_of_int (n : Z) : string := NilZero.string_of_int (Z.to_int n).

(** The cell of a field of strings: its values joined, or the empty string
    when the field is absent. *)
Definition text_cell (field : option (list string)) : string :=
  match field with
  | Some values => Str.join "<br>" values
  | None => EmptyString
  end.

Definition tags_cell (field : option (list tag_value)) : string :=
  match field with
  | Some values => Str.join "<br>" (map term_label values)
  | None => EmptyString
  end.

(** One round of the table loop, after the image cell: the five appends. *)
Definition append_row (t : table_data) (image_cell : string)
    (annotation : annotation) : table_data :=
  let fields := fields annotation in
  {| Image := Image t ++ [image_cell];
     Title := Title t ++ [text_cell (title fields)];
     Tags := Tags t ++ [tags_cell (tag fields)];
     Notes := Notes t ++ [text_cell (note fields)];
     Line_Color := Line_Color t ++ [text_cell (line_color fields)] |}.

(** The row of an annotation, given its image cell. *)
Definition row_of (image_cell : string) (annotation : annotation)
  : list string :=
  let fields := fields annotation in
  [image_cell; text_cell (title fields); tags_cell (tag fields);
   text_cell (note fields); text_cell (line_color fields)].

(** ** The servers *)

(** An image set or an annotation set of a listing, of which the notebooks
    read the [id]. *)
Record ref : Type := { ref_id : Z }.

(** The JSON value of a listing: an array of items or, as the payload of an
    error, an object, given by its keys. *)
Inductive listing (A : Type) : Type :=
| Items (items : list A)
| Object (keys : list string).
Arguments Items {A} items.
Arguments Object {A} keys.

(** A response: its status code, and its body when the body is JSON. *)
Record response (A : Type) : Type := {
  status_code : Z;
  body : option A
}.
Arguments status_code {A} r.
Arguments body {A} r.

Record image_data : Type := { iiif_url : string }.
Record image_info : Type := { width : Z; height : Z }.

(** The IAW API and the IIIF image server, as the answers to the calls the
    notebooks make; [Raise] is a failure of the transport. *)
Record server : Type := {
  collections_of : result (response (listing ref));
  image_sets_of : Z -> result (response (listing ref));
  images_of : Z -> result (response (listing image_data));
  annotation_sets_of : Z -> result (response (listing ref));
  annotations_of : Z -> result (response (listing annotation));
  image_of : Z -> result (response image_data);
  info_of : string -> result (response image_info);
  content_of : string -> result string
}.

(** [response.json()]. *)
Definition json {A} (response : response A) : result A :=
  match body response with
  | Some v => Ok v
  | None => Raise "JSONDecodeError"
  end.

(** What a [for] loop over a listing goes through: the items of an array,
    the keys of an object. *)
Definition elements {A} (v : listing A) : list (A + string) :=
  match v with
  | Items items => map inl items
  | Object keys => map inr keys
  end.

(** [v[0]]: the first item of an array, an [IndexError] on an empty array,
    and a [KeyError] on an object, which has no key 0. *)
Definition first_item {A} (v : listing A) : result A :=
  match v with
  | Items (x :: _) => Ok x
  | Items [] => Raise "IndexError"
  | Object _ => Raise "KeyError"
  end.

(** [x['id']]: a [TypeError] when [x] is a string. *)
Definition element_id (x : ref + string) : result Z :=
  match x with
  | inl r => Ok (ref_id r)
  | inr _ => Raise "TypeError"
  end.

(** ** Keyword search: the traversal *)

Fixpoint annotations_loop (keyword : string)
    (annotations : list (annotation + string)) (results : list annotation)
  : result (list annotation) :=
  match annotations with
  | [] => Ok results
  | inl annotation :: rest =>
      annotations_loop keyword rest
        (if annotation_contains_keyword annotation keyword
         then results ++ [annotation] else results)
  | inr _ :: _ => Raise "TypeError"
  end.

Fixpoint annotation_sets_loop (api : server) (keyword : string)
    (annotation_sets : list (ref + string)) (results : list annotation)
  : result (list annotation) :=
  match annotation_sets with
  | [] => Ok results
  | annotation_set :: rest =>
      annotation_set_id ← element_id annotation_set;
      response ← annotations_of api annotation_set_id;
      results ←
        (if status_code response =? 200 then
           annotations ← json response;
           annotations_loop keyword (elements annotations) results
         else Ok results);
      annotation_sets_loop api keyword rest results
  end.

Fixpoint image_sets_loop (api : server) (keyword : string)
    (image_sets : list (ref + string)) (results : list annotation)
  : result (list annotation) :=
  match image_sets with
  | [] => Ok results
  | image_set :: rest =>
      image_set_id ← element_id image_set;
      response ← annotation_sets_of api image_set_id;
      results ←
        (if status_code response =? 200 then
           annotation_sets ← json response;
           annotation_sets_loop api keyword (elements annotation_sets) results
         else Ok results);
      image_sets_loop api keyword rest results
  end.

(** The traversal cell of the keyword-search notebook, for a collection and
    a keyword: the list [results]. *)
Definition keyword_search (api : server) (collection : Z) (keyword : string)
  : result (list annotation) :=
  let results := [] in
  response ← image_sets_of api collection;
  if status_code response =? 200 then
    image_sets ← json response;
    image_sets_loop api keyword (elements image_sets) results
  else Ok results.

(** ** The pipelines *)

Section Pipelines.

(** OpenCV: the rasteriser of [fillPoly], [imdecode] on the bytes of a
    download ([None] when they do not decode), and [imencode] to JPEG
    followed by the base64 encoding of the buffer. *)
Variable covers : nat -> nat -> list (list (Z * Z)) -> nat -> nat -> bool.
Variable imdecode : string -> result (option ndarray).
Variable imencode_base64 : ndarray -> result string.

Definition load_image_from_url (api : server) (url : string)
  : result (option ndarray) :=
  content ← content_of api url;
  imdecode content.

Definition image_to_html (image : ndarray) (max_width : option Z)
  : result string :=
  jpg_as_text ← imencode_base64 image;
  let image_width :=
    match max_width with
    | Some m => "max-width:" +:+ str_of_int m +:+ "px"
    | None => "width:100%"
    end in
  Ok ("<img style=" +:+ String dquote image_width +:+
      String dquote " src=" +:+
      String dquote "data:image/jpeg;base64," +:+ jpg_as_text +:+
      String dquote "/>").

(** The image cell of an annotation: the crop of its polygon, or the
    empty string when the selector holds no polygon. *)
Definition image_cell (image : ndarray) (annotation : annotation)
  : result string :=
  let selector := selector annotation in
  if Str.contains "<polygon" selector then
    points ← extract_polygon_points selector;
    cropped_image ← crop_image covers image points;
    image_to_html cropped_image (Some 250)
  else Ok EmptyString.

(** *** The annotation table of one annotation set *)

Fixpoint table_loop (image : ndarray)
    (annotations : list (annotation + string)) (t : table_data)
  : result table_data :=
  match annotations with
  | [] => Ok t
  | inl annotation :: rest =>
      cell ← image_cell image annotation;
      table_loop image rest (append_row t cell annotation)
  | inr _ :: _ => Raise "TypeError"
  end.

(** The last two cells of the annotation-table notebook: the annotations
    of an annotation set are fetched, with no look at the status of the
    response, and the table is built from them. *)
Definition annotation_table (api : server) (annotation_set : Z)
    (image : ndarray) : result data_frame :=
  response ← annotations_of api annotation_set;
  annotations ← json response;
  table_data ← table_loop image (elements annotations) empty_table;
  DataFrame table_data.

(** The annotation-table notebook, cell after cell: the collections, the
    image sets of collection 11, the images of image set 30, the
    [info.json] of the first image, the image in full size and its display,
    the annotation sets of image set 30, and the table of annotation
    set 25. No cell looks at the status of a response. *)
Definition annotation_table_notebook (api : server) : result data_frame :=
  response ← collections_of api;
  collections ← json response;
  response ← image_sets_of api 11;
  image_sets ← json response;
  response ← images_of api 30;
  images ← json response;
  image_data ← first_item images;
  let image_iiif_base_url := iiif_url image_data in
  response ← info_of api (image_iiif_base_url +:+ "/info.json");
  image_info ← json response;
  let image_width := width image_info in
  let image_height := height image_info in
  let image_url :=
    image_iiif_base_url +:+ "/full/" +:+ str_of_int image_width +:+ "," +:+
    str_of_int image_height +:+ "/0/default.jpg" in
  image ← load_image_from_url api image_url;
  image ← match image with
          | Some image => _ ← image_to_html image None; Ok image
          | None => Raise "error"
          end;
  response ← annotation_sets_of api 30;
  annotation_sets ← json response;
  annotation_table api 25 image.

(** *** The table of the keyword search *)

(** The cell that loads the images of the results into the dictionary
    [images], keyed by image id. *)
Fixpoint load_images (api : server) (results : list annotation)
    (images : gmap Z (option ndarray))
  : result (gmap Z (option ndarray)) :=
  match results with
  | [] => Ok images
  | annotation :: rest =>
      let image_id := image_id annotation in
      images ←
        match images !! image_id with
        | Some _ => Ok images
        | None =>
            response ← image_of api image_id;
            if status_code response =? 200 then
              image_data ← json response;
              let image_iiif_base_url := iiif_url image_data in
              response ← info_of api (image_iiif_base_url +:+ "/info.json");
              if status_code response =? 200 then
                image_info ← json response;
                let image_width := width image_info in
                let image_height := height image_info in
                let image_url :=
                  image_iiif_base_url +:+ "/full/" +:+
                  str_of_int image_width +:+ "," +:+
                  str_of_int image_height +:+ "/0/default.jpg" in
                image ← load_image_from_url api image_url;
                Ok (<[image_id := image]> images)
              else Ok images
            else Ok images
        end;
      load_images api rest images
  end.

Fixpoint search_table_loop (images : gmap Z (option ndarray))
    (results : list annotation) (t : table_data) : result table_data :=
  match results with
  | [] => Ok t
  | annotation :: rest =>
      match images !! image_id annotation with
      | None => Raise "KeyError"
      | Some None => search_table_loop images rest t
      | Some (Some image) =>
          cell ← image_cell image annotation;
          search_table_loop images rest (append_row t cell annotation)
      end
  end.

(** The image cells and the annotations of the rows of the keyword-search
    table, one after the other. *)
Fixpoint search_cells (images : gmap Z (option ndarray))
    (results : list annotation) : result (list (string * annotation)) :=
  match results with
  | [] => Ok []
  | annotation :: rest =>
      match images !! image_id annotation with
      | None => Raise "KeyError"
      | Some None => search_cells images rest
      | Some (Some image) =>
          cell ← image_cell image annotation;
          r ← search_cells images rest;
          Ok ((cell, annotation) :: r)
      end
  end.

Definition search_table (images : gmap Z (option ndarray))
    (results : list annotation) : result data_frame :=
  table_data ← search_table_loop images results empty_table;
  DataFrame table_data.

(** The keyword-search notebook from the traversal on. *)
Definition keyword_search_table (api : server) (collection : Z)
    (keyword : string) : result data_frame :=
  results ← keyword_search api collection keyword;
  images ← load_images api results ∅;
  search_table images results.

End Pipelines.

(** An image of one colour, and the examples of the specification: a white
    image of 20 rows and 20 columns, and the square of side 10 at the
    origin. *)
Definition uniform (h w : nat) (px : list Z) : ndarray :=
  NdArray (h, w, length px) (replicate h (replicate w px)).

Definition white_20x20 : ndarray := uniform 20 20 [255; 255; 255].

Definition square : list (Z * Z) := [(0, 0); (10, 0); (10, 10); (0, 10)].

(** Every entry of the array is different from zero. *)
Definition all_nonzero (a : ndarray) : bool :=
  forallb (forallb (forallb (fun v => negb (v =? 0)))) (data a).

(** ** Selectors of the documented format *)

(** The selector of an annotation around the value of its [points]
    attribute. *)
Definition svg_polygon (value : string) : string :=
  "<svg><polygon points=" +:+ String dquote value +:+
  String dquote "></polygon></svg>".

(** A point token [x,y]. *)
Definition point_token (xy : string * string) : string :=
  fst xy +:+ String "," (snd xy).

(** The points value the notebooks' docstring shows: the tokens with one
    space between two of them. *)
Definition points_value (coords : list (string * string)) : string :=
  Str.join " " (map point_token coords).

(** The points value as the specification prints the format,
    [x1,y1 x2,y2 ... ] with a space after every token, the last included. *)
Fixpoint spaced_points_value (coords : list (string * string)) : string :=
  match coords with
  | [] => EmptyString
  | xy :: rest => point_token xy +:+ String " " (spaced_points_value rest)
  end.

Definition documented_selector (coords : list (string * string)) : string :=
  svg_polygon (spaced_points_value coords).

(** A coordinate holds no white space, comma or double quote. *)
Definition clean_coordinate (s : string) : bool :=
  Str.none (fun c => Str.is_whitespace c || Ascii.eqb c "," ||
                     Ascii.eqb c dquote) s.

(** A coordinate is numeric when [int(float(s))] has a value, and [v] is
    that value. *)
Definition numeric (s : string) (v : Z) : Prop :=
  PyFloat.int_float s = Ok v.

(** The coordinates [coords] are clean and have the values [pts]. *)
Definition coords_valued (coords : list (string * string))
    (pts : list (Z * Z)) : Prop :=
  Forall2 (fun xy p =>
    clean_coordinate (fst xy) = true /\ clean_coordinate (snd xy) = true /\
    numeric (fst xy) (fst p) /\ numeric (snd xy) (snd p)) coords pts.

(** A token is malformed when it does not split at its commas into exactly
    two halves, or when one of the halves is not numeric. *)
Definition malformed_token (t : string) : Prop :=
  length (Str.split "," t) <> 2%nat \/
  exists half, In half (Str.split "," t) /\ forall v, ~ numeric half v.

(** A selector is malformed when it holds no double quote, or when a token
    of its second quote-delimited field is malformed. *)
Definition malformed_selector (selector : string) : Prop :=
  Str.mem dquote selector = false \/
  exists value,
    nth_error (Str.split dquote selector) 1 = Some value /\
    Exists malformed_token (Str.split " " value).

(** A title value or a term label matches the keyword: the test of the two
    loops of [annotation_contains_keyword]. *)
Definition matches (keyword value : string) : bool :=
  Str.contains (Str.lower keyword) (Str.lower value).

(** The values of a field, none when the field is absent. *)
Definition values_of {A} (field : option (list A)) : list A :=
  match field with
  | Some values => values
  | None => []
  end.

(** The items a listing call yields to the traversal: those of the array of
    a response of status 200, and none otherwise. *)
Definition listed {A} (r : result (response (listing A))) : list A :=
  match r with
  | Ok response =>
      if status_code response =? 200 then
        match body response with
        | Some (Items items) => items
        | _ => []
        end
      else []
  | Raise _ => []
  end.

(** A listing call is answered when the transport does not fail and a
    response of status 200 carries an array. *)
Definition answered {A} (r : result (response (listing A))) : Prop :=
  exists response,
    r = Ok response /\
    (status_code response = 200 ->
     exists items, body response = Some (Items items)).

Definition well_behaved (api : server) : Prop :=
  (forall collection, answered (image_sets_of api collection)) /\
  (forall image_set, answered (annotation_sets_of api image_set)) /\
  (forall annotation_set, answered (annotations_of api annotation_set)).

(** Two calls have the same answer but for the status of the response. *)
Definition same_answer {A} (r r' : result (response A)) : Prop :=
  match r, r' with
  | Ok response, Ok response' => body response = body response'
  | Raise e, Raise e' => e = e'
  | _, _ => False
  end.

(** Two servers that differ in the status of their responses only. *)
Definition same_answers (api api' : server) : Prop :=
  same_answer (collections_of api) (collections_of api') /\
  (forall i, same_answer (image_sets_of api i) (image_sets_of api' i)) /\
  (forall i, same_answer (images_of api i) (images_of api' i)) /\
  (forall i, same_answer (annotation_sets_of api i)
                         (annotation_sets_of api' i)) /\
  (forall i, same_answer (annotations_of api i) (annotations_of api' i)) /\
  (forall u, same_answer (info_of api u) (info_of api' u)) /\
  (forall u, content_of api u = content_of api' u).

(** Two calls both answer with JSON, whatever the status and the value. *)
Definition both_json {A} (r r' : result (response A)) : Prop :=
  exists x x' v v',
    r = Ok x /\ r' = Ok x' /\ body x = Some v /\ body x' = Some v'.

(** Two servers that give the same answers, but for the status of the
    responses, to the calls whose result the annotation-table notebook
    uses, and that both answer with JSON, of whatever value, to the calls
    whose result it only prints: the collections, the image sets of
    collection 11 and the annotation sets of image set 30. *)
Definition same_used_answers (api api' : server) : Prop :=
  both_json (collections_of api) (collections_of api') /\
  both_json (image_sets_of api 11) (image_sets_of api' 11) /\
  both_json (annotation_sets_of api 30) (annotation_sets_of api' 30) /\
  (forall i, same_answer (images_of api i) (images_of api' i)) /\
  (forall i, same_answer (annotations_of api i) (annotations_of api' i)) /\
  (forall u, same_answer (info_of api u) (info_of api' u)) /\
  (forall u, content_of api u = content_of api' u).

(** A listing call fails when its response has another status than 200. *)
Definition failed {A} (r : result (response A)) : Prop :=
  exists response, r = Ok response /\ status_code response <> 200.

(** The annotations of a collection in the order of the traversal: image
    set after image set, annotation set after annotation set. *)
Definition received (api : server) (collection : Z) : list annotation :=
  flat_map (fun image_set =>
    flat_map (fun annotation_set =>
      listed (annotations_of api (ref_id annotation_set)))
      (listed (annotation_sets_of api (ref_id image_set))))
    (listed (image_sets_of api collection)).

(** The columns of the table. *)
Definition header : list string :=
  ["Image"; "Title"; "Tags"; "Notes"; "Line Color"].

(** The table [t] with the rows of the annotations [annotations], of image
    cells [cells], appended. *)
Definition extend (t : table_data) (cells : list string)
    (annotations : list annotation) : table_data :=
  {| Image := Image t ++ cells;
     Title := Title t ++ map (fun a => text_cell (title (fields a))) annotations;
     Tags := Tags t ++ map (fun a => tags_cell (tag (fields a))) annotations;
     Notes := Notes t ++ map (fun a => text_cell (note (fields a))) annotations;
     Line_Color :=
       Line_Color t ++
       map (fun a => text_cell (line_color (fields a))) annotations |}.

(** The image of the annotation is in the dictionary, and decoded. *)
Definition decoded (images : gmap Z (option ndarray)) (a : annotation)
  : bool :=
  match images !! image_id a with
  | Some (Some _) => true
  | _ => false
  end.

(** The two fetches that put an image into the dictionary do not both
    succeed: the one of the image, or the one of its [info.json]. *)
Definition fetch_fails (api : server) (image : Z) : Prop :=
  failed (image_of api image) \/
  exists response image_data,
    image_of api image = Ok response /\
    status_code response = 200 /\
    body response = Some image_data /\
    failed (info_of api (iiif_url image_data +:+ "/info.json")).

(** ** A server for the examples

    Collection 11 has the image sets 30 and 31; the listing of the
    annotation sets of 30 fails, 31 has the annotation set 25, of three
    annotations on the images 7 and 8. The status of the fetch of image 8
    is a parameter. *)

Definition robe : annotation :=
  {| image_id := 7;
     selector := svg_polygon "0,0 10,0 10,10 0,10";
     fields := {| title := Some ["Red Robe"];
                  tag := Some [{| term_label := "garment" |}];
                  note := None;
                  line_color := Some ["#ff0000"] |} |}.

Definition halo : annotation :=
  {| image_id := 7;
     selector := svg_polygon "2,2 8,2 8,8";
     fields := {| title := Some ["Halo"]; tag := None;
                  note := Some ["gilded"]; line_color := None |} |}.

Definition fold : annotation :=
  {| image_id := 8;
     selector := "<svg><circle cx=5 cy=5 r=2></circle></svg>";
     fields := {| title := None;
                  tag := Some [{| term_label := "Robe fold" |}];
                  note := None; line_color := None |} |}.

Definition not_found {A} : response (listing A) :=
  {| status_code := 404; body := Some (Object ["message"]) |}.

Definition demo_server (status_of_image_8 : Z) : server :=
  {| collections_of :=
       Ok {| status_code := 200; body := Some (Items [{| ref_id := 11 |}]) |};
     images_of := fun image_set =>
       Ok (if image_set =? 30
           then {| status_code := 200;
                   body := Some (Items [{| iiif_url :=
                                             "https://iiif.example/7" |}]) |}
           else not_found);
     image_sets_of := fun collection =>
       Ok (if collection =? 11
           then {| status_code := 200;
                   body := Some (Items [{| ref_id := 30 |};
                                        {| ref_id := 31 |}]) |}
           else not_found);
     annotation_sets_of := fun image_set =>
       Ok (if image_set =? 31
           then {| status_code := 200;
                   body := Some (Items [{| ref_id := 25 |}]) |}
           else not_found);
     annotations_of := fun annotation_set =>
       Ok (if annotation_set =? 25
           then {| status_code := 200;
                   body := Some (Items [robe; halo; fold]) |}
           else not_found);
     image_of := fun image =>
       Ok {| status_code := if image =? 8 then status_of_image_8 else 200;
             body := Some {| iiif_url := "https://iiif.example/" +:+
                                         str_of_int image |} |};
     info_of := fun _ =>
       Ok {| status_code := 200;
             body := Some {| width := 20; height := 20 |} |};
     content_of := fun url => Ok url |}.

(** The server [api] with a failing listing of the image sets: status 500
    and the payload of an error. *)
Definition with_failing_image_sets (api : server) : server :=
  {| collections_of := collections_of api;
     image_sets_of := fun _ =>
       Ok {| status_code := 500; body := Some (Object ["message"]) |};
     images_of := images_of api;
     annotation_sets_of := annotation_sets_of api;
     annotations_of := annotations_of api;
     image_of := image_of api;
     info_of := info_of api;
     content_of := content_of api |}.

(** Every download decodes to the white image. *)
Definition demo_imdecode (content : string) : result (option ndarray) :=
  Ok (Some white_20x20).

(** The encoder refuses an image without rows or columns. *)
Definition demo_imencode (image : ndarray) : result string :=
  match shape image with
  | (O, _, _) | (_, O, _) => Raise "error"
  | _ => Ok "/9j/4AAQ"
  end.

(** The image cell of a crop in the examples, and a dictionary of images in
    which image 7 is decoded and image 8 is not. *)
Definition demo_img : string :=
  "<img style=" +:+ String dquote "max-width:250px" +:+
  String dquote " src=" +:+ String dquote "data:image/jpeg;base64,/9j/4AAQ" +:+
  String dquote "/>".

Definition demo_images : gmap Z (option ndarray) :=
  <[7 := Some white_20x20]> (<[8 := None]> ∅).

(** ** Notions for the further properties *)

(** The number of occurrences of the character [c] in [s]. *)
Fixpoint occurrences (c : ascii) (s : string) : nat :=
  match s with
  | EmptyString => 0%nat
  | String d t => ((if Ascii.eqb d c then 1 else 0) + occurrences c t)%nat
  end.

(** The points value of a polygon of integer vertices: every coordinate in
    decimal, as [str] prints it. *)
Definition render_point (p : Z * Z) : string * string :=
  (str_of_int (fst p), str_of_int (snd p)).

Definition render_points (pts : list (Z * Z)) : string :=
  points_value (map render_point pts).

(** The entries of the array are bytes. *)
Definition uint8 (a : ndarray) : Prop :=
  forall y x c v, entry a y x c = Some v -> 0 <= v < 256.

(** The five lists of the table have one length. *)
Definition balanced (t : table_data) : Prop :=
  length (Title t) = length (Image t) /\
  length (Tags t) = length (Image t) /\
  length (Notes t) = length (Image t) /\
  length (Line_Color t) = length (Image t).

(** Every character of [s] is a decimal digit. *)
Definition all_digits (s : string) : bool :=
  Str.none (fun c => negb (PyFloat.is_digit c)) s.

(** The check that the entries of an array are bytes. *)
Definition all_bytes (a : ndarray) : bool :=
  forallb (forallb (forallb (fun v => (0 <=? v) && (v <? 256)))) (data a).

(** The server [api] with another answer to the listing of the images. *)
Definition with_images_of (api : server)
    (r : result (response (listing image_data))) : server :=
  {| collections_of := collections_of api;
     image_sets_of := image_sets_of api;
     images_of := fun _ => r;
     annotation_sets_of := annotation_sets_of api;
     annotations_of := annotations_of api;
     image_of := image_of api;
     info_of := info_of api;
     content_of := content_of api |}.

(** The server [api] with a failure of the transport on the listing of the
    annotation sets of one image set. *)
Definition with_broken_annotation_sets (api : server) (image_set : Z)
    (e : string) : server :=
  {| collections_of := collections_of api;
     image_sets_of := image_sets_of api;
     images_of := images_of api;
     annotation_sets_of := fun i =>
       if i =? image_set then Raise e else annotation_sets_of api i;
     annotations_of := annotations_of api;
     image_of := image_of api;
     info_of := info_of api;
     content_of := content_of api |}.

(** * Properties *)

(** ** Strings *)

Module StrFacts.
Import Str.

Lemma append_cons (c : ascii) (a b : string) :
  String c a +:+ b = String c (a +:+ b).
Proof. reflexivity. Qed.

Lemma append_nil_l (b : string) : EmptyString +:+ b = b.
Proof. reflexivity. Qed.

Lemma append_nil_r (s : string) : s +:+ EmptyString = s.
Proof.
  induction s as [|c s IH]; [reflexivity |].
  now rewrite append_cons, IH.
Qed.


Lemma split_not_nil (sep : ascii) (s : string) : split sep s <> [].
Proof.
  destruct s as [|c s]; simpl; [discriminate |].
  destruct (Ascii.eqb c sep); [discriminate |].
  destruct (split sep s); discriminate.
Qed.

Lemma split_without_sep (sep : ascii) (a : string) :
  mem sep a = false -> split sep a = [a].
Proof.
  induction a as [|c a IH]; simpl; [reflexivity |].
  intros H. apply orb_false_iff in H as [Hc Ha].
  rewrite Hc, (IH Ha). reflexivity.
Qed.

Lemma split_app_sep (sep : ascii) (a b : string) :
  mem sep a = false ->
  split sep (a +:+ String sep b) = a :: split sep b.
Proof.
  induction a as [|c a IH].
  - intros _. rewrite append_nil_l. simpl. now rewrite Ascii.eqb_refl.
  - intros H. simpl in H. apply orb_false_iff in H as [Hc Ha].
    rewrite append_cons. simpl. rewrite Hc, (IH Ha). reflexivity.
Qed.

(** Splitting undoes joining, when no part holds the separator. *)
Lemma split_join (sep : ascii) (parts : list string) :
  parts <> [] ->
  Forall (fun p => mem sep p = false) parts ->
  split sep (join (String sep EmptyString) parts) = parts.
Proof.
  induction parts as [|p ps IH]; [congruence |].
  intros _ Hall. inversion Hall as [|? ? Hp Hps]; subst.
  destruct ps as [|q qs].
  - simpl. now apply split_without_sep.
  - change (join (String sep EmptyString) (p :: q :: qs))
      with (p +:+ String sep EmptyString +:+
            join (String sep EmptyString) (q :: qs)).
    rewrite append_cons, append_nil_l.
    rewrite split_app_sep by assumption.
    rewrite IH by (assumption || discriminate). reflexivity.
Qed.

Lemma none_app (p : ascii -> bool) (a b : string) :
  none p (a +:+ b) = none p a && none p b.
Proof.
  induction a as [|c a IH]; [reflexivity |].
  rewrite append_cons. simpl. now rewrite IH, andb_assoc.
Qed.

Lemma none_weaken (p q : ascii -> bool) (s : string) :
  (forall c, q c = true -> p c = true) ->
  none p s = true -> none q s = true.
Proof.
  intros Hpq. induction s as [|c s IH]; simpl; [reflexivity |].
  intros H. apply andb_true_iff in H as [Hc Hs].
  rewrite (IH Hs), andb_true_r.
  destruct (q c) eqn:Hq; [|reflexivity].
  rewrite (Hpq c Hq) in Hc. discriminate.
Qed.

Lemma none_eqb_mem (d : ascii) (s : string) :
  none (fun c => Ascii.eqb c d) s = true -> mem d s = false.
Proof.
  induction s as [|c s IH]; simpl; [reflexivity |].
  intros H. apply andb_true_iff in H as [Hc Hs].
  rewrite (IH Hs). now destruct (Ascii.eqb c d).
Qed.

Lemma words_single (p : string) :
  p <> EmptyString -> none is_whitespace p = true -> words p = [p].
Proof.
  induction p as [|c p IH]; [congruence |].
  intros _ H. simpl in H. apply andb_true_iff in H as [Hc Hp].
  apply negb_true_iff in Hc.
  cbn [words]. rewrite Hc.
  destruct p as [|d p]; [reflexivity |].
  pose proof Hp as Hp'. simpl in Hp'. apply andb_true_iff in Hp' as [Hd _].
  apply negb_true_iff in Hd. rewrite Hd.
  rewrite IH by (assumption || discriminate). reflexivity.
Qed.

Lemma words_app_space (p rest : string) :
  p <> EmptyString -> none is_whitespace p = true ->
  words (p +:+ String " " rest) = p :: words rest.
Proof.
  induction p as [|c p IH]; [congruence |].
  intros _ H. simpl in H. apply andb_true_iff in H as [Hc Hp].
  apply negb_true_iff in Hc.
  rewrite append_cons. cbn [words]. rewrite Hc.
  destruct p as [|d p].
  - reflexivity.
  - pose proof Hp as Hp'. simpl in Hp'. apply andb_true_iff in Hp' as [Hd _].
    apply negb_true_iff in Hd.
    rewrite IH by (assumption || discriminate).
    rewrite append_cons, Hd. reflexivity.
Qed.

(** The white-space tokens of a joined list are its parts. *)
Lemma words_join (parts : list string) :
  Forall (fun p => p <> EmptyString /\ none is_whitespace p = true) parts ->
  words (join " " parts) = parts.
Proof.
  induction parts as [|p ps IH]; [reflexivity |].
  intros Hall. inversion Hall as [|? ? [Hne Hp] Hps]; subst.
  destruct ps as [|q qs].
  - simpl. now apply words_single.
  - change (join " " (p :: q :: qs))
      with (p +:+ String " " (join " " (q :: qs))).
    rewrite words_app_space by assumption.
    now rewrite IH.
Qed.

End StrFacts.

(** ** Results *)

Lemma bind_Ok {A B} (a : A) (f : A -> result B) : (Ok a ≫= f) = f a.
Proof. reflexivity. Qed.

Lemma bind_Raise {A B} (e : string) (f : A -> result B) :
  (Raise e ≫= f) = Raise e.
Proof. reflexivity. Qed.

Lemma bind_ext {A B} (r : result A) (k k' : A -> result B) :
  (forall a, k a = k' a) -> (r ≫= k) = (r ≫= k').
Proof. intros H. destruct r as [a|e]; [apply H | reflexivity]. Qed.

Lemma bind_Ok_inv {A B} (r : result A) (f : A -> result B) (b : B) :
  (r ≫= f) = Ok b -> exists a, r = Ok a /\ f a = Ok b.
Proof. destruct r as [a|e]; [eauto | discriminate]. Qed.

Lemma bind_Raise_inv {A B} (r : result A) (f : A -> result B) (e : string) :
  (r ≫= f) = Raise e -> r = Raise e \/ exists a, r = Ok a /\ f a = Raise e.
Proof. destruct r as [a|e']; [eauto | intros [= ->]; now left]. Qed.

(** ** Polygon extractor *)

Module ExtractorFacts.
Import Str StrFacts.

Lemma mem_app (c : ascii) (a b : string) :
  mem c (a +:+ b) = mem c a || mem c b.
Proof.
  induction a as [|x a IH]; [reflexivity |].
  rewrite append_cons. simpl. now rewrite IH, orb_assoc.
Qed.

Lemma clean_no_comma (s : string) :
  clean_coordinate s = true -> mem "," s = false.
Proof.
  intros H. apply none_eqb_mem. revert H. apply none_weaken.
  intros c ->. now rewrite orb_true_r.
Qed.

Lemma clean_no_dquote (s : string) :
  clean_coordinate s = true -> mem dquote s = false.
Proof.
  intros H. apply none_eqb_mem. revert H. apply none_weaken.
  intros c ->. now rewrite orb_true_r.
Qed.

Lemma clean_no_whitespace (s : string) :
  clean_coordinate s = true -> none is_whitespace s = true.
Proof. apply none_weaken. now intros c ->. Qed.

Lemma no_whitespace_no_space (s : string) :
  none is_whitespace s = true -> mem " " s = false.
Proof.
  intros H. apply none_eqb_mem. revert H. apply none_weaken.
  intros c Hc. apply Ascii.eqb_eq in Hc. now subst c.
Qed.

(** A token made of two clean coordinates. *)
Section Token.
Variables x y : string.
Hypothesis Hx : clean_coordinate x = true.
Hypothesis Hy : clean_coordinate y = true.

Lemma token_not_empty : point_token (x, y) <> EmptyString.
Proof. unfold point_token; simpl. now destruct x. Qed.

Lemma token_no_whitespace : none is_whitespace (point_token (x, y)) = true.
Proof.
  unfold point_token; simpl fst; simpl snd.
  rewrite none_app. simpl.
  now rewrite !clean_no_whitespace by assumption.
Qed.

Lemma token_no_dquote : mem dquote (point_token (x, y)) = false.
Proof.
  unfold point_token; simpl fst; simpl snd.
  rewrite mem_app. simpl.
  now rewrite !clean_no_dquote by assumption.
Qed.

Lemma token_split : split "," (point_token (x, y)) = [x; y].
Proof.
  unfold point_token; simpl fst; simpl snd.
  rewrite split_app_sep by now apply clean_no_comma.
  now rewrite split_without_sep by now apply clean_no_comma.
Qed.

Lemma parse_point_token (vx vy : Z) :
  numeric x vx -> numeric y vy ->
  parse_point (point_token (x, y)) = Ok (vx, vy).
Proof.
  unfold numeric, parse_point. intros Hvx Hvy.
  rewrite token_split. simpl unpack2. rewrite bind_Ok.
  now rewrite Hvx, bind_Ok, Hvy, bind_Ok.
Qed.
End Token.

Lemma parse_points_tokens (coords : list (string * string))
    (pts acc : list (Z * Z)) :
  coords_valued coords pts ->
  parse_points (map point_token coords) acc = Ok (acc ++ pts).
Proof.
  intros H. revert acc.
  induction H as [|[x y] [vx vy] coords pts (Hx & Hy & Hvx & Hvy) _ IH];
    intros acc; simpl.
  - now rewrite app_nil_r.
  - rewrite (parse_point_token x y Hx Hy vx vy Hvx Hvy), bind_Ok.
    rewrite IH, <- app_assoc. reflexivity.
Qed.

Lemma tokens_clean (coords : list (string * string)) (pts : list (Z * Z)) :
  coords_valued coords pts ->
  Forall (fun t => t <> EmptyString /\ none is_whitespace t = true /\
                   mem dquote t = false) (map point_token coords).
Proof.
  induction 1 as [|[x y] p coords pts (Hx & Hy & _) _ IH]; simpl;
    constructor; trivial.
  repeat split.
  - now apply token_not_empty.
  - now apply token_no_whitespace.
  - now apply token_no_dquote.
Qed.

Lemma mem_join_space (c : ascii) (parts : list string) :
  Ascii.eqb " " c = false ->
  Forall (fun t => mem c t = false) parts ->
  mem c (join " " parts) = false.
Proof.
  intros Hc. induction 1 as [|p ps Hp Hps IH]; [reflexivity |].
  destruct ps as [|q qs]; [exact Hp |].
  change (join " " (p :: q :: qs))
    with (p +:+ String " " EmptyString +:+ join " " (q :: qs)).
  rewrite !mem_app, Hp, IH. cbn [mem]. now rewrite Hc.
Qed.

Lemma split_points_value (coords : list (string * string))
    (pts : list (Z * Z)) :
  coords <> [] -> coords_valued coords pts ->
  split " " (points_value coords) = map point_token coords.
Proof.
  intros Hne H. unfold points_value.
  apply (split_join " ").
  - now destruct coords.
  - eapply Forall_impl; [exact (tokens_clean coords pts H) |].
    intros t (_ & Ht & _). now apply no_whitespace_no_space.
Qed.

Lemma words_points_value (coords : list (string * string))
    (pts : list (Z * Z)) :
  coords_valued coords pts ->
  words (points_value coords) = map point_token coords.
Proof.
  intros H. unfold points_value. apply words_join.
  eapply Forall_impl; [exact (tokens_clean coords pts H) |].
  intros t (? & ? & _). now split.
Qed.

Lemma points_value_no_dquote (coords : list (string * string))
    (pts : list (Z * Z)) :
  coords_valued coords pts -> mem dquote (points_value coords) = false.
Proof.
  intros H. unfold points_value. apply mem_join_space; [reflexivity |].
  eapply Forall_impl; [exact (tokens_clean coords pts H) |].
  now intros t (_ & _ & ?).
Qed.

(** The exceptions of [int(float(s))]. *)
Lemma int_float_raises (s e : string) :
  PyFloat.int_float s = Raise e -> e = "ValueError" \/ e = "OverflowError".
Proof.
  unfold PyFloat.int_float, PyFloat.float_of_string.
  destruct (PyFloat.drop_underscores _ _) as [s'|]; simpl;
    [| intros [= <-]; now left].
  destruct (PyFloat.take_sign s') as [neg body].
  repeat match goal with
         | |- context [if ?b then _ else _] => destruct b
         | |- context [match ?o with Some _ => _ | None => _ end] =>
             destruct o as [[? ?]|]
         end; simpl;
    try (intros [= <-]; auto; fail).
  destruct (PyFloat.decimal_to_float _ _ _); simpl;
    intros [= <-]; auto.
Qed.

Lemma parse_point_raises (t e : string) :
  parse_point t = Raise e -> e = "ValueError" \/ e = "OverflowError".
Proof.
  unfold parse_point, unpack2.
  destruct (split "," t) as [|x [|y [|? ?]]]; simpl;
    try (intros [= <-]; now left).
  intros H.
  apply bind_Raise_inv in H as [H | (vx & _ & H)];
    [now apply int_float_raises in H |].
  apply bind_Raise_inv in H as [H | (vy & _ & H)];
    [now apply int_float_raises in H | discriminate].
Qed.

Lemma malformed_token_raises (t : string) :
  malformed_token t -> exists e, parse_point t = Raise e.
Proof.
  unfold malformed_token, parse_point, unpack2, numeric.
  intros [Hlen | (half & Hin & Hnot)].
  - destruct (split "," t) as [|x [|y [|? ?]]]; simpl in *;
      try congruence; now eexists.
  - destruct (split "," t) as [|x [|y [|? ?]]];
      try (now eexists).
    rewrite bind_Ok.
    destruct (PyFloat.int_float x) as [vx|ex] eqn:Ex;
      [rewrite bind_Ok | now eexists].
    destruct (PyFloat.int_float y) as [vy|ey] eqn:Ey;
      [exfalso | now eexists].
    destruct Hin as [<- | [<- | []]];
      [exact (Hnot vx Ex) | exact (Hnot vy Ey)].
Qed.

Lemma parse_points_raises (tokens : list string) (acc : list (Z * Z))
    (e : string) :
  parse_points tokens acc = Raise e ->
  e = "ValueError" \/ e = "OverflowError".
Proof.
  revert acc. induction tokens as [|t ts IH]; intros acc; simpl;
    [discriminate |].
  intros H. apply bind_Raise_inv in H as [H | (p & _ & H)].
  - now apply parse_point_raises in H.
  - now apply IH in H.
Qed.

Lemma parse_points_malformed (tokens : list string) (acc : list (Z * Z)) :
  Exists malformed_token tokens ->
  exists e, parse_points tokens acc = Raise e.
Proof.
  intros H. revert acc.
  induction H as [t ts Ht | t ts _ IH]; intros acc; simpl.
  - destruct (malformed_token_raises t Ht) as [e ->]. eauto.
  - destruct (parse_point t) as [p|e]; simpl; eauto.
Qed.

Lemma split_without_second (selector : string) :
  mem dquote selector = false ->
  extract_polygon_points selector = Raise "IndexError".
Proof.
  intros H. unfold extract_polygon_points.
  now rewrite split_without_sep.
Qed.

Lemma mem_split_second (selector value : string) :
  nth_error (split dquote selector) 1 = Some value ->
  mem dquote selector = true.
Proof.
  intros H. destruct (mem dquote selector) eqn:E; [reflexivity |].
  rewrite split_without_sep in H by assumption. discriminate.
Qed.

End ExtractorFacts.

(** C5, as amended. A selector whose points attribute holds one or more
    tokens [x,y] with exactly one space between two of them, and none at
    either end, every coordinate being accepted by [int(float(.))], yields
    the integer pairs of the coordinates, in selector order, and as many of
    them as the attribute value has white-space separated tokens. *)
Theorem extract_polygon_points_single_spaced
    (pre post : string) (coords : list (string * string))
    (pts : list (Z * Z)) :
  Str.mem dquote pre = false ->
  coords <> [] ->
  coords_valued coords pts ->
  extract_polygon_points
    (pre +:+ String dquote (points_value coords) +:+ String dquote post)
    = Ok pts /\
  length pts = length (Str.words (points_value coords)).
Proof.
  intros Hpre Hne H. split.
  - unfold extract_polygon_points.
    rewrite StrFacts.append_cons.
    rewrite StrFacts.split_app_sep by assumption.
    rewrite StrFacts.split_app_sep
      by exact (ExtractorFacts.points_value_no_dquote coords pts H).
    rewrite (ExtractorFacts.split_points_value coords pts Hne H).
    exact (ExtractorFacts.parse_points_tokens coords pts [] H).
  - rewrite (ExtractorFacts.words_points_value coords pts H), length_map.
    symmetry. exact (Forall2_length _ _ _ H).
Qed.

Lemma extract_polygon_points_single_spaced_witness :
  extract_polygon_points (svg_polygon "0,0 10,0 10,10 0,10")
    = Ok [(0, 0); (10, 0); (10, 10); (0, 10)] /\
  length [(0, 0); (10, 0); (10, 10); (0, 10)]
    = length (Str.words "0,0 10,0 10,10 0,10").
Proof.
  apply (extract_polygon_points_single_spaced
           "<svg><polygon points=" "></polygon></svg>"
           [("0", "0"); ("10", "0"); ("10", "10"); ("0", "10")]
           [(0, 0); (10, 0); (10, 10); (0, 10)]).
  - reflexivity.
  - discriminate.
  - repeat constructor; vm_compute; reflexivity.
Defined.

(** The docstring's own example, with its fractional coordinates
    truncated. *)
Example extract_polygon_points_docstring :
  extract_polygon_points
    (svg_polygon "137.23291015625,433.1348571777344 396.35723876953125,431.2434387207031 413.3800354003906,461.5061340332031 403.92291259765625,480.4203186035156")
  = Ok [(137, 433); (396, 431); (413, 461); (403, 480)].
Proof. vm_compute. reflexivity. Qed.

(** C5, the claim as stated fails: the selector of the square in the format
    the specification prints, with a space after the last token, has four
    white-space separated tokens of clean numeric coordinates, and
    [extract_polygon_points] raises a [ValueError] on it, from unpacking the
    empty token that follows the last space. *)
Lemma extract_polygon_points_trailing_space :
  let coords := [("0", "0"); ("10", "0"); ("10", "10"); ("0", "10")] in
  coords_valued coords [(0, 0); (10, 0); (10, 10); (0, 10)] /\
  length (Str.words (spaced_points_value coords)) = 4%nat /\
  extract_polygon_points (documented_selector coords) = Raise "ValueError".
Proof.
  split; [| split].
  - repeat constructor; vm_compute; reflexivity.
  - reflexivity.
  - vm_compute. reflexivity.
Qed.

(** Whatever the selector, the only exceptions are [IndexError],
    [ValueError] and [OverflowError]. *)
Lemma extract_polygon_points_raises (selector e : string) :
  extract_polygon_points selector = Raise e ->
  e = "IndexError" \/ e = "ValueError" \/ e = "OverflowError".
Proof.
  unfold extract_polygon_points.
  destruct (Str.split dquote selector) as [|a [|value rest]];
    try (intros [= <-]; now left).
  intros H. right. exact (ExtractorFacts.parse_points_raises _ _ _ H).
Qed.

(** C6, as amended. A malformed selector never yields a point list: without
    a double quote it raises [IndexError], and with a malformed token in its
    second quote-delimited field it raises [ValueError] or
    [OverflowError]. *)
Theorem extract_polygon_points_malformed (selector : string) :
  malformed_selector selector ->
  (Str.mem dquote selector = false /\
   extract_polygon_points selector = Raise "IndexError") \/
  (Str.mem dquote selector = true /\
   (extract_polygon_points selector = Raise "ValueError" \/
    extract_polygon_points selector = Raise "OverflowError")).
Proof.
  intros [Hno | (value & Hval & Hbad)].
  - left. split; [assumption |].
    now apply ExtractorFacts.split_without_second.
  - right. split; [exact (ExtractorFacts.mem_split_second _ _ Hval) |].
    unfold extract_polygon_points.
    destruct (Str.split dquote selector) as [|a [|v rest]];
      try discriminate.
    injection Hval as ->.
    destruct (ExtractorFacts.parse_points_malformed _ [] Hbad) as [e He].
    rewrite He.
    destruct (ExtractorFacts.parse_points_raises _ _ _ He) as [-> | ->];
      auto.
Qed.

Lemma extract_polygon_points_malformed_witness :
  (Str.mem dquote (svg_polygon "0,0 10;0 10,10") = false /\
   extract_polygon_points (svg_polygon "0,0 10;0 10,10")
     = Raise "IndexError") \/
  (Str.mem dquote (svg_polygon "0,0 10;0 10,10") = true /\
   (extract_polygon_points (svg_polygon "0,0 10;0 10,10")
      = Raise "ValueError" \/
    extract_polygon_points (svg_polygon "0,0 10;0 10,10")
      = Raise "OverflowError")).
Proof.
  apply (extract_polygon_points_malformed (svg_polygon "0,0 10;0 10,10")).
  right. exists "0,0 10;0 10,10". split; [reflexivity |].
  apply Exists_cons_tl, Exists_cons_hd. left. vm_compute. lia.
Defined.

(** C6, the claim as stated fails: a selector without quote delimiters is
    malformed, and the exception is an [IndexError], not a [ParseError]. *)
Lemma extract_polygon_points_no_quote :
  malformed_selector "<svg><polygon points=0,0 10,0></polygon></svg>" /\
  extract_polygon_points "<svg><polygon points=0,0 10,0></polygon></svg>"
    = Raise "IndexError" /\
  extract_polygon_points "<svg><polygon points=0,0 10,0></polygon></svg>"
    <> Raise "ParseError".
Proof.
  split; [left; reflexivity |].
  split; [reflexivity | discriminate].
Qed.

(** ** Cropper *)

Module CropperFacts.

Lemma In_imap_pair {A} (l : list A) (i : nat) (v : A) :
  In (i, v) (imap pair l) <-> l !! i = Some v.
Proof.
  rewrite <- list_elem_of_In, elem_of_lookup_imap. split.
  - intros (j & w & [= -> ->] & H). exact H.
  - intros H. now exists i, v.
Qed.

(** [where_nonzero] lists exactly the places of the entries that are not
    zero. *)
Lemma In_where_nonzero (a : ndarray) (y x c : nat) :
  In (y, x, c) (where_nonzero a) <->
  exists v, entry a y x c = Some v /\ v <> 0.
Proof.
  unfold where_nonzero, entry. rewrite in_flat_map. split.
  - intros ([y' row] & Hrow & H). apply In_imap_pair in Hrow.
    apply in_flat_map in H as ([x' px] & Hpx & H). apply In_imap_pair in Hpx.
    apply in_flat_map in H as ([c' v] & Hv & H). apply In_imap_pair in Hv.
    destruct (Z.eqb_spec v 0) as [|Hnz]; [destruct H |].
    destruct H as [[= -> -> ->] | []].
    exists v. rewrite Hrow; simpl. rewrite Hpx; simpl. now split.
  - intros (v & H & Hnz).
    destruct (data a !! y) as [row|] eqn:Hrow; [simpl in H | discriminate].
    destruct (row !! x) as [px|] eqn:Hpx; [simpl in H | discriminate].
    exists (y, row). split; [now apply In_imap_pair |].
    apply in_flat_map. exists (x, px). split; [now apply In_imap_pair |].
    apply in_flat_map. exists (c, v). split; [now apply In_imap_pair |].
    destruct (Z.eqb_spec v 0); [contradiction | now left].
Qed.


Lemma fold_left_min (t : list nat) (a : nat) :
  In (fold_left Nat.min t a) (a :: t) /\
  forall i, In i (a :: t) -> (fold_left Nat.min t a <= i)%nat.
Proof.
  revert a. induction t as [|b t IH]; intros a; simpl.
  - split; [now left | intros i [<- | []]; lia].
  - destruct (IH (Nat.min a b)) as [Hin Hle]. simpl in Hin.
    remember (fold_left Nat.min t (Nat.min a b)) as m eqn:Em. clear Em. split.
    + destruct Hin as [Hm | Hm]; [| now right; right].
      destruct (Nat.min_spec a b) as [[_ E] | [_ E]]; rewrite E in Hm; auto.
    + intros i [<- | [<- | Hi]].
      * specialize (Hle (Nat.min a b) (or_introl eq_refl)). lia.
      * specialize (Hle (Nat.min a b) (or_introl eq_refl)). lia.
      * apply Hle. now right.
Qed.

Lemma fold_left_max (t : list nat) (a : nat) :
  In (fold_left Nat.max t a) (a :: t) /\
  forall i, In i (a :: t) -> (i <= fold_left Nat.max t a)%nat.
Proof.
  revert a. induction t as [|b t IH]; intros a; simpl.
  - split; [now left | intros i [<- | []]; lia].
  - destruct (IH (Nat.max a b)) as [Hin Hle]. simpl in Hin.
    remember (fold_left Nat.max t (Nat.max a b)) as m eqn:Em. clear Em. split.
    + destruct Hin as [Hm | Hm]; [| now right; right].
      destruct (Nat.max_spec a b) as [[_ E] | [_ E]]; rewrite E in Hm; auto.
    + intros i [<- | [<- | Hi]].
      * specialize (Hle (Nat.max a b) (or_introl eq_refl)). lia.
      * specialize (Hle (Nat.max a b) (or_introl eq_refl)). lia.
      * apply Hle. now right.
Qed.

Lemma np_min_spec (l : list nat) (m : nat) :
  np_min l = Ok m -> In m l /\ forall i, In i l -> (m <= i)%nat.
Proof.
  destruct l as [|a t]; [discriminate |]. intros [= <-].
  apply fold_left_min.
Qed.

Lemma np_max_spec (l : list nat) (m : nat) :
  np_max l = Ok m -> In m l /\ forall i, In i l -> (i <= m)%nat.
Proof.
  destruct l as [|a t]; [discriminate |]. intros [= <-].
  apply fold_left_max.
Qed.

Lemma np_min_is_Ok (l : list nat) : l <> [] -> exists m, np_min l = Ok m.
Proof. destruct l; [congruence | simpl; eauto]. Qed.

Lemma np_max_is_Ok (l : list nat) : l <> [] -> exists m, np_max l = Ok m.
Proof. destruct l; [congruence | simpl; eauto]. Qed.

Section WithRasteriser.
Variable covers : nat -> nat -> list (list (Z * Z)) -> nat -> nat -> bool.

(** [crop_image] in terms of its masked image. *)
Lemma crop_image_masked (image : ndarray) (points : list (Z * Z)) :
  crop_image covers image points
  = (let idx := where_nonzero (masked covers image points) in
     y0 ← np_min (map (fun i => fst (fst i)) idx);
     y1 ← np_max (map (fun i => fst (fst i)) idx);
     x0 ← np_min (map (fun i => snd (fst i)) idx);
     x1 ← np_max (map (fun i => snd (fst i)) idx);
     Ok (slice2 (masked covers image points) y0 y1 x0 x1)).
Proof. reflexivity. Qed.

(** [crop_image] raises exactly when the masked image is blank, and the
    exception is NumPy's [ValueError]. *)
Lemma crop_image_raises (image : ndarray) (points : list (Z * Z))
    (e : string) :
  crop_image covers image points = Raise e <->
  (where_nonzero (masked covers image points) = [] /\ e = "ValueError").
Proof.
  rewrite crop_image_masked.
  destruct (where_nonzero (masked covers image points)) as [|i t].
  - simpl. split; [intros [= <-]; now split | intros [_ ->]; reflexivity].
  - simpl. split; [discriminate | intros [? _]; discriminate].
Qed.

(** The bounds [crop_image] slices at, when the masked image is not
    blank: the least and the greatest row and column of an entry that is
    not zero. *)
Lemma crop_image_bounds (image : ndarray) (points : list (Z * Z)) :
  where_nonzero (masked covers image points) <> [] ->
  exists y0 y1 x0 x1,
    let idx := where_nonzero (masked covers image points) in
    np_min (map (fun i => fst (fst i)) idx) = Ok y0 /\
    np_max (map (fun i => fst (fst i)) idx) = Ok y1 /\
    np_min (map (fun i => snd (fst i)) idx) = Ok x0 /\
    np_max (map (fun i => snd (fst i)) idx) = Ok x1 /\
    crop_image covers image points
      = Ok (slice2 (masked covers image points) y0 y1 x0 x1) /\
    tight_crop (masked covers image points)
      = Ok (slice2 (masked covers image points) y0 (S y1) x0 (S x1)).
Proof.
  intros Hne. rewrite crop_image_masked. unfold tight_crop, np_where_nonzero.
  destruct (where_nonzero (masked covers image points)) as [|i t];
    [congruence |].
  simpl. eauto 10.
Qed.

(** The painted mask, row by row and pixel by pixel. *)
Lemma mask_row (h w ch : nat) (pts : list (list (Z * Z))) (color : list Z)
    (y : nat) (rm : list (list Z)) :
  imap (fun y row =>
          imap (fun x px => if covers h w pts y x then color else px) row)
       (replicate h (replicate w (replicate ch 0))) !! y = Some rm ->
  (y < h)%nat /\
  rm = imap (fun x px => if covers h w pts y x then color else px)
            (replicate w (replicate ch 0)).
Proof.
  rewrite list_lookup_imap.
  destruct (replicate h _ !! y) as [r|] eqn:E; [| discriminate].
  apply lookup_replicate in E as [-> Hy]. simpl. intros [= <-]. now split.
Qed.

Lemma mask_pixel (h w ch : nat) (pts : list (list (Z * Z)))
    (color : list Z) (y x : nat) (pm : list Z) :
  imap (fun x px => if covers h w pts y x then color else px)
       (replicate w (replicate ch 0)) !! x = Some pm ->
  (x < w)%nat /\
  pm = if covers h w pts y x then color else replicate ch 0.
Proof.
  rewrite list_lookup_imap.
  destruct (replicate w _ !! x) as [p|] eqn:E; [| discriminate].
  apply lookup_replicate in E as [-> Hx]. simpl. intros [= <-]. now split.
Qed.

(** An entry of the masked image lies within the shape of the image, and
    is the entry of the image and-ed with the mask: zero where the
    rasteriser does not paint. *)
Lemma entry_masked (image : ndarray) (points : list (Z * Z))
    (y x c : nat) (v : Z) :
  entry (masked covers image points) y x c = Some v ->
  let '(h, w, ch) := shape image in
  (y < h)%nat /\ (x < w)%nat /\
  exists iv, entry image y x c = Some iv /\
    v = Z.land iv (if covers h w [points] y x then 255 else 0).
Proof.
  unfold masked, bitwise_and, entry. simpl.
  destruct (shape image) as [[h w] ch]. simpl.
  rewrite lookup_zip_with.
  destruct (data image !! y) as [ri|]; [simpl | discriminate].
  destruct (imap _ (replicate h _) !! y) as [rm|] eqn:Em;
    [simpl | discriminate].
  apply mask_row in Em as [Hy ->].
  rewrite lookup_zip_with.
  destruct (ri !! x) as [pi|]; [simpl | discriminate].
  destruct (imap _ _ !! x) as [pm|] eqn:Ep; [simpl | discriminate].
  apply mask_pixel in Ep as [Hx ->].
  rewrite lookup_zip_with.
  destruct (pi !! c) as [iv|]; [simpl | discriminate].
  intros H. split; [assumption |]. split; [assumption |].
  exists iv. split; [reflexivity |].
  destruct (covers h w [points] y x).
  - destruct (replicate ch 255 !! c) as [mv|] eqn:Ec; [| discriminate].
    apply lookup_replicate in Ec as [-> _]. now injection H as <-.
  - destruct (replicate ch 0 !! c) as [mv|] eqn:Ec; [| discriminate].
    apply lookup_replicate in Ec as [-> _]. now injection H as <-.
Qed.

Lemma shape_masked (image : ndarray) (points : list (Z * Z)) :
  shape (masked covers image points) = shape image.
Proof. reflexivity. Qed.

(** A polygon of which the rasteriser paints no pixel of the image, as one
    of no area or one outside the image, leaves a blank masked image. *)
Lemma masked_blank (image : ndarray) (points : list (Z * Z)) :
  (forall y x, (y < fst (fst (shape image)))%nat ->
               (x < snd (fst (shape image)))%nat ->
               covers (fst (fst (shape image))) (snd (fst (shape image)))
                      [points] y x = false) ->
  blank (masked covers image points).
Proof.
  intros Hout y x c v H. apply entry_masked in H.
  destruct (shape image) as [[h w] ch]. simpl in Hout.
  destruct H as (Hy & Hx & iv & _ & ->).
  rewrite (Hout y x Hy Hx). apply Z.land_0_r.
Qed.

(** Whenever [crop_image] returns, its crop is one row and one column
    short of the bounding box of the entries that are not zero. *)
Lemma crop_image_one_short (image : ndarray) (points : list (Z * Z))
    (crop : ndarray) :
  crop_image covers image points = Ok crop ->
  exists tight,
    tight_crop (masked covers image points) = Ok tight /\
    shape tight =
      (S (fst (fst (shape crop))), S (snd (fst (shape crop))),
       snd (shape crop)).
Proof.
  intros Hc.
  assert (Hne : where_nonzero (masked covers image points) <> []).
  { intros E. rewrite crop_image_masked, E in Hc. discriminate. }
  destruct (crop_image_bounds image points Hne)
    as (y0 & y1 & x0 & x1 & Hy0 & Hy1 & Hx0 & Hx1 & Hcrop & Htight).
  rewrite Hcrop in Hc. injection Hc as <-.
  eexists. split; [exact Htight |].
  apply np_min_spec in Hy0 as [_ Hy0], Hx0 as [_ Hx0].
  apply np_max_spec in Hy1 as [Iy1 Hy1], Hx1 as [Ix1 Hx1].
  assert (Ly : (y0 <= y1)%nat) by now apply Hy0.
  assert (Lx : (x0 <= x1)%nat) by now apply Hx0.
  apply in_map_iff in Iy1 as ([[ya xa] ca] & Ea & Ia). simpl in Ea.
  apply in_map_iff in Ix1 as ([[yb xb] cb] & Eb & Ib). simpl in Eb.
  subst ya xb.
  apply In_where_nonzero in Ia as (va & Ha & _).
  apply In_where_nonzero in Ib as (vb & Hb & _).
  apply entry_masked in Ha, Hb.
  unfold slice2. rewrite shape_masked.
  destruct (shape image) as [[h w] ch]. cbn [shape fst snd].
  destruct Ha as (Hy1h & _), Hb as (_ & Hx1w & _).
  unfold slice_length. repeat f_equal; lia.
Qed.

End WithRasteriser.

End CropperFacts.

(** C1, the case of the specification: on the white image of 20 rows and 20
    columns with the square of side 10, the entries that are not zero span
    rows 0 to 10 and columns 0 to 10; [crop_image] returns rows 0 to 9 and
    columns 0 to 9 of them, a crop of 10 rows and 10 columns that leaves out
    row 10 and column 10, whose entries are not zero either, where the
    bounding box has 11 rows and 11 columns. *)
Theorem crop_image_square_not_tight :
  let masked_image := masked closed_polygon_covers white_20x20 square in
  crop_image closed_polygon_covers white_20x20 square
    = Ok (slice2 masked_image 0 10 0 10) /\
  tight_crop masked_image = Ok (slice2 masked_image 0 11 0 11) /\
  shape (slice2 masked_image 0 10 0 10) = (10, 10, 3)%nat /\
  shape (slice2 masked_image 0 11 0 11) = (11, 11, 3)%nat /\
  entry masked_image 10 10 0 = Some 255 /\
  crop_image closed_polygon_covers white_20x20 square
    <> tight_crop masked_image.
Proof.
  cbv zeta. repeat apply conj; try (vm_compute; reflexivity).
  vm_compute. discriminate.
Qed.

(** The crop of the square has 10 rows and 10 columns, and none of its
    entries is zero. *)
Example crop_image_square_10x10 :
  exists crop,
    crop_image closed_polygon_covers white_20x20 square = Ok crop /\
    shape crop = (10, 10, 3)%nat /\
    length (data crop) = 10%nat /\
    Forall (fun row => length row = 10%nat) (data crop) /\
    all_nonzero crop = true.
Proof.
  eexists. split; [vm_compute; reflexivity |].
  repeat apply conj; try reflexivity. repeat constructor.
Qed.

(** An only entry that is not zero is cropped away: the crop of a black
    image with one white pixel under the square is empty. *)
Example crop_image_single_pixel :
  let image :=
    NdArray (3, 3, 1)%nat [[[0]; [0]; [0]]; [[0]; [255]; [0]]; [[0]; [0]; [0]]] in
  crop_image closed_polygon_covers image square
    = Ok (NdArray (0, 0, 1)%nat []).
Proof. vm_compute. reflexivity. Qed.




(** ** Keyword filter *)

Module KeywordFacts.
Import Str StrFacts.

Lemma prefix_spec (a b : string) :
  String.prefix a b = true <-> exists t, b = a +:+ t.
Proof.
  revert b. induction a as [|c a IH]; intros b.
  - split; [intros _; now exists b | now destruct b].
  - destruct b as [|d b]; simpl.
    + split; [discriminate | intros [t Ht]; discriminate].
    + destruct (ascii_dec c d) as [-> | Hne].
      * rewrite IH. split; intros [t Ht]; exists t.
        -- now rewrite append_cons, <- Ht.
        -- rewrite append_cons in Ht. now injection Ht.
      * split; [discriminate |].
        intros [t Ht]. rewrite append_cons in Ht. congruence.
Qed.

(** [contains] decides the occurrence of one string in another. *)
Lemma contains_spec (needle hay : string) :
  contains needle hay = true <-> substring needle hay.
Proof.
  unfold substring. split.
  - induction hay as [|c hay IH]; cbn [contains]; intros H;
      apply orb_true_iff in H as [H | H].
    + apply prefix_spec in H as [t Ht]. now exists EmptyString, t.
    + discriminate.
    + apply prefix_spec in H as [t Ht]. now exists EmptyString, t.
    + destruct (IH H) as (pre & post & ->). now exists (String c pre), post.
  - intros (pre & post & ->). induction pre as [|c pre IH].
    + rewrite append_nil_l.
      assert (Hp : String.prefix needle (needle +:+ post) = true)
        by (apply prefix_spec; now exists post).
      destruct (needle +:+ post); cbn [contains]; now rewrite Hp.
    + rewrite append_cons. cbn [contains]. rewrite IH. apply orb_true_r.
Qed.

Lemma contains_empty (hay : string) : contains EmptyString hay = true.
Proof. now destruct hay. Qed.

Lemma title_loop_existsb (keyword : string) (values : list string) :
  title_loop keyword values = existsb (matches keyword) values.
Proof.
  induction values as [|v values IH]; simpl; [reflexivity |].
  unfold matches at 1. now destruct (contains _ _).
Qed.

Lemma tag_loop_existsb (keyword : string) (values : list tag_value) :
  tag_loop keyword values
  = existsb (fun t => matches keyword (term_label t)) values.
Proof.
  induction values as [|v values IH]; simpl; [reflexivity |].
  unfold matches at 1. now destruct (contains _ _).
Qed.

(** The two loops in sequence: the titles first, and the tags only when no
    title matches. *)
Lemma annotation_contains_keyword_orb (a : annotation) (keyword : string) :
  annotation_contains_keyword a keyword
  = existsb (matches keyword) (values_of (title (fields a))) ||
    existsb (fun t => matches keyword (term_label t))
            (values_of (tag (fields a))).
Proof.
  unfold annotation_contains_keyword, values_of.
  destruct (title (fields a)) as [titles|], (tag (fields a)) as [tags|];
    rewrite ?title_loop_existsb, ?tag_loop_existsb; simpl;
    repeat match goal with
           | |- context [existsb ?f ?l] => destruct (existsb f l)
           end; reflexivity.
Qed.

End KeywordFacts.

(** C4. [annotation_contains_keyword] returns [True] exactly when the
    keyword in lower case occurs in the lower case of a value of the title
    field or of a term label of the tag field; it is the disjunction of the
    title loop and the tag loop, in this order and the second taken only
    when the first finds nothing; an annotation without the two fields never
    matches; a title [Red Robe] matches [robe] and [ROBE]. *)
Theorem annotation_contains_keyword_spec (a : annotation) (keyword : string) :
  (annotation_contains_keyword a keyword = true <->
     (exists values v,
        title (fields a) = Some values /\ In v values /\
        substring (Str.lower keyword) (Str.lower v)) \/
     (exists values t,
        tag (fields a) = Some values /\ In t values /\
        substring (Str.lower keyword) (Str.lower (term_label t)))) /\
  annotation_contains_keyword a keyword
    = (if existsb (matches keyword) (values_of (title (fields a))) then true
       else existsb (fun t => matches keyword (term_label t))
                    (values_of (tag (fields a)))) /\
  (title (fields a) = None -> tag (fields a) = None ->
   annotation_contains_keyword a keyword = false) /\
  (title (fields a) = Some ["Red Robe"] ->
   annotation_contains_keyword a "robe" = true /\
   annotation_contains_keyword a "ROBE" = true).
Proof.
  repeat split.
  - rewrite KeywordFacts.annotation_contains_keyword_orb.
    intros H. apply orb_true_iff in H as [H | H];
      apply existsb_exists in H as (x & Hin & Hx);
      apply KeywordFacts.contains_spec in Hx; [left | right].
    + destruct (title (fields a)) as [titles|]; [| destruct Hin].
      now exists titles, x.
    + destruct (tag (fields a)) as [tags|]; [| destruct Hin].
      now exists tags, x.
  - rewrite KeywordFacts.annotation_contains_keyword_orb.
    intros [(values & v & -> & Hin & Hs) | (values & t & -> & Hin & Hs)];
      apply KeywordFacts.contains_spec in Hs; apply orb_true_iff;
      [left | right]; apply existsb_exists; eauto.
  - apply KeywordFacts.annotation_contains_keyword_orb.
  - intros Ht Hg. rewrite KeywordFacts.annotation_contains_keyword_orb.
    now rewrite Ht, Hg.
  - unfold annotation_contains_keyword. now rewrite H.
  - unfold annotation_contains_keyword. now rewrite H.
Qed.

Example annotation_contains_keyword_red_robe :
  let a := {| image_id := 1; selector := EmptyString;
              fields := {| title := Some ["Red Robe"]; tag := None;
                           note := None; line_color := None |} |} in
  annotation_contains_keyword a "robe" = true /\
  annotation_contains_keyword a "ROBE" = true /\
  annotation_contains_keyword a "rope" = false.
Proof. cbv zeta. repeat apply conj; reflexivity. Qed.

(** C10. With the empty keyword, [annotation_contains_keyword] returns
    [True] exactly for the annotations that have a title field with a value
    or a tag field with a value, and [False] exactly for those whose two
    fields are absent or without values. *)
Theorem annotation_contains_empty_keyword (a : annotation) :
  (annotation_contains_keyword a EmptyString = true <->
     (exists v values, title (fields a) = Some (v :: values)) \/
     (exists t values, tag (fields a) = Some (t :: values))) /\
  (annotation_contains_keyword a EmptyString = false <->
     (title (fields a) = None \/ title (fields a) = Some []) /\
     (tag (fields a) = None \/ tag (fields a) = Some [])).
Proof.
  unfold annotation_contains_keyword.
  destruct (title (fields a)) as [[|v titles]|],
           (tag (fields a)) as [[|t tags]|]; simpl;
    rewrite ?KeywordFacts.contains_empty; simpl;
    (split; split;
     [ try discriminate; intros _; eauto
     | try reflexivity; intros [(? & ? & [=]) | (? & ? & [=])]
     | try discriminate; intros _; split; auto
     | try reflexivity;
       intros [[[=] | [=]] [[=] | [=]]] ]).
Qed.

(** ** Traversal *)

Module TraversalFacts.

Lemma filter_flat_map {A B} (f : B -> bool) (g : A -> list B) (l : list A) :
  List.filter f (flat_map g l) = flat_map (fun x => List.filter f (g x)) l.
Proof.
  induction l as [|x l IH]; simpl; [reflexivity |].
  now rewrite List.filter_app, IH.
Qed.

Lemma annotations_loop_items (keyword : string) (items results : list annotation) :
  annotations_loop keyword (map inl items) results
  = Ok (results ++
        List.filter (fun a => annotation_contains_keyword a keyword) items).
Proof.
  revert results. induction items as [|a items IH]; intros results; simpl.
  - now rewrite app_nil_r.
  - rewrite IH. destruct (annotation_contains_keyword a keyword).
    + now rewrite <- app_assoc.
    + reflexivity.
Qed.

Lemma listed_items {A} (r : result (response (listing A)))
    (response : response (listing A)) (items : list A) :
  r = Ok response -> status_code response = 200 ->
  body response = Some (Items items) -> listed r = items.
Proof. intros -> E Hb. unfold listed. now rewrite E, Hb. Qed.

Lemma listed_failed {A} (r : result (response (listing A))) :
  failed r -> listed r = [].
Proof.
  intros (response & -> & Hs). unfold listed.
  now destruct (Z.eqb_spec (status_code response) 200).
Qed.

(** One annotation set: the matching annotations of its listing are
    appended, and nothing is when the call fails. *)
Lemma annotation_set_step (keyword : string)
    (r : result (response (listing annotation))) (results : list annotation) :
  answered r ->
  (response ← r;
   if status_code response =? 200 then
     annotations ← json response;
     annotations_loop keyword (elements annotations) results
   else Ok results)
  = Ok (results ++
        List.filter (fun a => annotation_contains_keyword a keyword)
                    (listed r)).
Proof.
  intros (response & -> & Hbody). rewrite bind_Ok. unfold listed.
  destruct (Z.eqb_spec (status_code response) 200) as [E|_].
  - destruct (Hbody E) as [items Hitems]. unfold json. rewrite Hitems.
    rewrite bind_Ok. simpl. apply annotations_loop_items.
  - now rewrite app_nil_r.
Qed.

Section Server.
Variable api : server.
Variable keyword : string.
Hypothesis Hapi : well_behaved api.

Lemma annotation_sets_loop_items (sets : list ref)
    (results : list annotation) :
  annotation_sets_loop api keyword (map inl sets) results
  = Ok (results ++
        flat_map (fun s =>
          List.filter (fun a => annotation_contains_keyword a keyword)
            (listed (annotations_of api (ref_id s)))) sets).
Proof.
  destruct Hapi as (_ & _ & Hann).
  revert results. induction sets as [|s sets IH]; intros results.
  - simpl. now rewrite app_nil_r.
  - cbn [map annotation_sets_loop element_id]. rewrite bind_Ok.
    pose proof (annotation_set_step keyword _ results (Hann (ref_id s)))
      as Hstep.
    destruct (annotations_of api (ref_id s)) as [response|e] eqn:E.
    + rewrite bind_Ok in Hstep |- *. rewrite Hstep, bind_Ok, IH.
      cbn [flat_map]. now rewrite E, <- app_assoc.
    + destruct (Hann (ref_id s)) as (? & ? & _). congruence.
Qed.

Lemma image_sets_loop_items (sets : list ref) (results : list annotation) :
  image_sets_loop api keyword (map inl sets) results
  = Ok (results ++
        flat_map (fun i =>
          flat_map (fun s =>
            List.filter (fun a => annotation_contains_keyword a keyword)
            (listed (annotations_of api (ref_id s))))
            (listed (annotation_sets_of api (ref_id i)))) sets).
Proof.
  destruct Hapi as (_ & Hsets & _).
  revert results. induction sets as [|i sets IH]; intros results.
  - simpl. now rewrite app_nil_r.
  - cbn [map image_sets_loop element_id]. rewrite bind_Ok.
    destruct (Hsets (ref_id i)) as (response & E & Hbody).
    rewrite E, bind_Ok.
    destruct (Z.eqb_spec (status_code response) 200) as [E200|E200].
    + destruct (Hbody E200) as [items Hitems]. unfold json.
      rewrite Hitems, bind_Ok. simpl elements.
      rewrite annotation_sets_loop_items, bind_Ok, IH.
      cbn [flat_map]. rewrite (listed_items _ _ _ E E200 Hitems).
      now rewrite <- app_assoc.
    + rewrite bind_Ok, IH. cbn [flat_map].
      rewrite (listed_failed _ (ex_intro _ response (conj E E200))).
      reflexivity.
Qed.

End Server.

End TraversalFacts.

(** ** Table builder *)

Module TableFacts.

Lemma extend_append_row (t : table_data) (cell : string) (a : annotation)
    (cells : list string) (annotations : list annotation) :
  extend (append_row t cell a) cells annotations
  = extend t (cell :: cells) (a :: annotations).
Proof.
  unfold extend, append_row. simpl. now rewrite <- !app_assoc.
Qed.

Lemma extend_nil (t : table_data) : extend t [] [] = t.
Proof. destruct t. unfold extend. simpl. now rewrite !app_nil_r. Qed.

Lemma frame_rows_extend (cells : list string) (annotations : list annotation) :
  length cells = length annotations ->
  frame_rows cells
    (map (fun a => text_cell (title (fields a))) annotations)
    (map (fun a => tags_cell (tag (fields a))) annotations)
    (map (fun a => text_cell (note (fields a))) annotations)
    (map (fun a => text_cell (line_color (fields a))) annotations)
  = zip_with row_of cells annotations.
Proof.
  revert annotations.
  induction cells as [|c cells IH]; intros [|a annotations]; simpl;
    try discriminate; [reflexivity |].
  intros [= H]. now rewrite IH.
Qed.

(** The frame of a table built from nothing: one row for each annotation,
    in order. *)
Lemma DataFrame_extend (cells : list string) (annotations : list annotation) :
  length cells = length annotations ->
  DataFrame (extend empty_table cells annotations)
  = Ok {| columns := header; rows := zip_with row_of cells annotations |}.
Proof.
  intros H. unfold DataFrame, extend. simpl.
  rewrite !length_map, <- H, Nat.eqb_refl. simpl.
  now rewrite frame_rows_extend.
Qed.

Lemma mapM_Ok {A B} (f : A -> result B) (l : list A) (k : list B) :
  mapM f l = Ok k <-> Forall2 (fun a b => f a = Ok b) l k.
Proof.
  revert k. induction l as [|a l IH]; intros k; simpl.
  - split; [intros [= <-]; constructor | now inversion 1].
  - split.
    + intros H. apply bind_Ok_inv in H as (b & Hb & H).
      apply bind_Ok_inv in H as (k' & Hk' & [= <-]).
      constructor; [assumption | now apply IH].
    + inversion 1 as [|? b ? k' Hb Hk']; subst.
      rewrite Hb, bind_Ok. apply IH in Hk'. now rewrite Hk', bind_Ok.
Qed.

Section Cells.
Variable covers : nat -> nat -> list (list (Z * Z)) -> nat -> nat -> bool.
Variable imencode_base64 : ndarray -> result string.

Lemma table_loop_cells (image : ndarray) (annotations : list annotation)
    (t : table_data) :
  table_loop covers imencode_base64 image (map inl annotations) t
  = (cells ← mapM (image_cell covers imencode_base64 image) annotations;
     Ok (extend t cells annotations)).
Proof.
  revert t. induction annotations as [|a annotations IH]; intros t.
  - cbn [map table_loop mapM]. change (mret []) with (@Ok (list string) []).
    now rewrite bind_Ok, extend_nil.
  - cbn [map table_loop mapM]. 
    destruct (image_cell covers imencode_base64 image a) as [cell|e]; [| reflexivity].
    rewrite !bind_Ok, IH.
    destruct (mapM (image_cell covers imencode_base64 image) annotations) as [cells|e];
      [| reflexivity].
    rewrite !bind_Ok. now rewrite extend_append_row.
Qed.

Lemma search_table_loop_cells (images : gmap Z (option ndarray))
    (results : list annotation) (t : table_data) :
  search_table_loop covers imencode_base64 images results t
  = (r ← search_cells covers imencode_base64 images results;
     Ok (extend t (map fst r) (map snd r))).
Proof.
  revert t. induction results as [|a results IH]; intros t.
  - cbn [search_table_loop search_cells]. rewrite bind_Ok.
    cbn [map]. now rewrite extend_nil.
  - cbn [search_table_loop search_cells].
    destruct (images !! image_id a) as [[image|]|]; [| apply IH | reflexivity].
    
    destruct (image_cell covers imencode_base64 image a) as [cell|e]; [| reflexivity].
    rewrite !bind_Ok, IH.
    destruct (search_cells _ _ images results) as [r|e]; [| reflexivity].
    rewrite !bind_Ok. simpl. now rewrite extend_append_row.
Qed.


Lemma search_cells_Ok (images : gmap Z (option ndarray))
    (results : list annotation) (cells : list string) :
  Forall (fun a => is_Some (images !! image_id a)) results ->
  Forall2 (fun a cell => exists image,
             images !! image_id a = Some (Some image) /\
             image_cell covers imencode_base64 image a = Ok cell)
          (List.filter (decoded images) results) cells ->
  search_cells covers imencode_base64 images results
  = Ok (zip cells (List.filter (decoded images) results)).
Proof.
  intros Hall. revert cells.
  induction Hall as [|a results [oi Ha] Hall IH]; intros cells.
  - simpl. now inversion 1.
  - cbn [search_cells List.filter].
    assert (Hd : decoded images a = match oi with Some _ => true | None => false end)
      by (unfold decoded; now rewrite Ha).
    rewrite Hd, Ha. destruct oi as [image|].
    + inversion 1 as [|? cell ? cells' (image' & E & Hcell) Hrest]; subst.
      rewrite Ha in E. injection E as <-.
       rewrite Hcell, bind_Ok.
      rewrite (IH cells' Hrest), bind_Ok.
      reflexivity.
    + intros H. now apply IH.
Qed.

(** A missing key aborts the loop, wherever the annotation stands. *)
Lemma search_table_loop_missing (images : gmap Z (option ndarray))
    (results : list annotation) (a : annotation) (t : table_data) :
  In a results -> images !! image_id a = None ->
  exists e,
    search_table_loop covers imencode_base64 images results t = Raise e.
Proof.
  intros Hin Ha. revert t.
  induction results as [|b results IH]; intros t; [destruct Hin |].
  cbn [search_table_loop]. destruct Hin as [-> | Hin].
  - rewrite Ha. eauto.
  - destruct (images !! image_id b) as [[image|]|]; eauto.
    destruct (image_cell _ _ image b) as [cell|e]; [| eauto].
    rewrite bind_Ok. eauto.
Qed.

Lemma search_table_loop_app (images : gmap Z (option ndarray))
    (pre post : list annotation) (t : table_data) :
  search_table_loop covers imencode_base64 images (pre ++ post) t
  = (t' ← search_table_loop covers imencode_base64 images pre t;
     search_table_loop covers imencode_base64 images post t').
Proof.
  revert t. induction pre as [|a pre IH]; intros t; [reflexivity |].
  cbn [app search_table_loop].
  destruct (images !! image_id a) as [[image|]|]; [| apply IH | reflexivity].
  destruct (image_cell _ _ image a) as [cell|e]; [| reflexivity].
  rewrite !bind_Ok. apply IH.
Qed.

End Cells.

End TableFacts.

(** ** The pipelines *)

Module PipelineFacts.
Import TraversalFacts TableFacts.

Lemma image_sets_loop_app (api : server) (keyword : string)
    (before after : list (ref + string)) (results : list annotation) :
  image_sets_loop api keyword (before ++ after) results
  = (results' ← image_sets_loop api keyword before results;
     image_sets_loop api keyword after results').
Proof.
  revert results. induction before as [|s before IH]; intros results;
    [reflexivity |].
  cbn [app image_sets_loop].
  destruct (element_id s) as [i|e]; [rewrite !bind_Ok | reflexivity].
  destruct (annotation_sets_of api i) as [r|e]; [rewrite !bind_Ok | reflexivity].
  match goal with
  | |- (?step ≫= _) = _ => destruct step as [results1|e]
  end; [rewrite !bind_Ok; apply IH | reflexivity].
Qed.

Lemma annotation_sets_loop_app (api : server) (keyword : string)
    (before after : list (ref + string)) (results : list annotation) :
  annotation_sets_loop api keyword (before ++ after) results
  = (results' ← annotation_sets_loop api keyword before results;
     annotation_sets_loop api keyword after results').
Proof.
  revert results. induction before as [|s before IH]; intros results;
    [reflexivity |].
  cbn [app annotation_sets_loop].
  destruct (element_id s) as [i|e]; [rewrite !bind_Ok | reflexivity].
  destruct (annotations_of api i) as [r|e]; [rewrite !bind_Ok | reflexivity].
  match goal with
  | |- (?step ≫= _) = _ => destruct step as [results1|e]
  end; [rewrite !bind_Ok; apply IH | reflexivity].
Qed.

(** An image set whose listing of annotation sets fails is skipped: the
    loop goes on with the image sets that follow, as if it were not
    there. *)
Lemma image_sets_loop_skips (api : server) (keyword : string)
    (before after : list (ref + string)) (bad : ref)
    (results : list annotation) :
  failed (annotation_sets_of api (ref_id bad)) ->
  image_sets_loop api keyword (before ++ inl bad :: after) results
  = image_sets_loop api keyword (before ++ after) results.
Proof.
  intros (r & E & Hs). rewrite !image_sets_loop_app.
  destruct (image_sets_loop api keyword before results) as [results'|e];
    [rewrite !bind_Ok | reflexivity].
  cbn [image_sets_loop element_id]. rewrite bind_Ok, E, bind_Ok.
  destruct (Z.eqb_spec (status_code r) 200); [contradiction |].
  now rewrite bind_Ok.
Qed.

(** An annotation set whose listing of annotations fails is skipped in the
    same way. *)
Lemma annotation_sets_loop_skips (api : server) (keyword : string)
    (before after : list (ref + string)) (bad : ref)
    (results : list annotation) :
  failed (annotations_of api (ref_id bad)) ->
  annotation_sets_loop api keyword (before ++ inl bad :: after) results
  = annotation_sets_loop api keyword (before ++ after) results.
Proof.
  intros (r & E & Hs). rewrite !annotation_sets_loop_app.
  destruct (annotation_sets_loop api keyword before results) as [results'|e];
    [rewrite !bind_Ok | reflexivity].
  cbn [annotation_sets_loop element_id]. rewrite bind_Ok, E, bind_Ok.
  destruct (Z.eqb_spec (status_code r) 200); [contradiction |].
  now rewrite bind_Ok.
Qed.

(** Whatever the server answers, when a loop of the traversal returns it
    has appended the matching annotations of the listings that succeeded:
    a response of status 200 whose body is an object without keys lists
    nothing, and any other body that is not an array raises. *)
Lemma annotation_set_step_Ok (keyword : string)
    (r : result (response (listing annotation)))
    (results results' : list annotation) :
  (response ← r;
   if status_code response =? 200 then
     annotations ← json response;
     annotations_loop keyword (elements annotations) results
   else Ok results) = Ok results' ->
  results' = results ++
             List.filter (fun a => annotation_contains_keyword a keyword)
                         (listed r).
Proof.
  destruct r as [response|e]; [rewrite bind_Ok | discriminate].
  unfold listed, json.
  destruct (status_code response =? 200);
    [| intros [= <-]; now rewrite app_nil_r].
  destruct (body response) as [[items|[|key keys]]|]; try discriminate.
  - rewrite bind_Ok. simpl elements. rewrite annotations_loop_items.
    now intros [= <-].
  - intros [= <-]. now rewrite app_nil_r.
Qed.

Lemma annotation_sets_loop_Ok (api : server) (keyword : string)
    (sets : list ref) (results results' : list annotation) :
  annotation_sets_loop api keyword (map inl sets) results = Ok results' ->
  results' = results ++
    flat_map (fun s =>
      List.filter (fun a => annotation_contains_keyword a keyword)
                  (listed (annotations_of api (ref_id s)))) sets.
Proof.
  revert results. induction sets as [|s sets IH]; intros results.
  - intros [= <-]. simpl. now rewrite app_nil_r.
  - cbn [map annotation_sets_loop element_id]. rewrite bind_Ok. intros H.
    destruct (annotations_of api (ref_id s)) as [response|e] eqn:E;
      [rewrite bind_Ok in H | discriminate].
    apply bind_Ok_inv in H as (results1 & Hstep & Hrest).
    apply (annotation_set_step_Ok keyword (Ok response)) in Hstep.
    apply IH in Hrest. subst results1 results'.
    cbn [flat_map]. now rewrite E, <- app_assoc.
Qed.

Lemma annotation_sets_step_Ok (api : server) (keyword : string)
    (r : result (response (listing ref)))
    (results results' : list annotation) :
  (response ← r;
   if status_code response =? 200 then
     annotation_sets ← json response;
     annotation_sets_loop api keyword (elements annotation_sets) results
   else Ok results) = Ok results' ->
  results' = results ++
    flat_map (fun s =>
      List.filter (fun a => annotation_contains_keyword a keyword)
                  (listed (annotations_of api (ref_id s)))) (listed r).
Proof.
  destruct r as [response|e]; [rewrite bind_Ok | discriminate].
  unfold listed, json.
  destruct (status_code response =? 200);
    [| intros [= <-]; simpl; now rewrite app_nil_r].
  destruct (body response) as [[items|[|key keys]]|]; try discriminate.
  - rewrite bind_Ok. simpl elements. apply annotation_sets_loop_Ok.
  - intros [= <-]. simpl. now rewrite app_nil_r.
Qed.

Lemma image_sets_loop_Ok (api : server) (keyword : string)
    (sets : list ref) (results results' : list annotation) :
  image_sets_loop api keyword (map inl sets) results = Ok results' ->
  results' = results ++
    flat_map (fun i =>
      flat_map (fun s =>
        List.filter (fun a => annotation_contains_keyword a keyword)
                    (listed (annotations_of api (ref_id s))))
        (listed (annotation_sets_of api (ref_id i)))) sets.
Proof.
  revert results. induction sets as [|i sets IH]; intros results.
  - intros [= <-]. simpl. now rewrite app_nil_r.
  - cbn [map image_sets_loop element_id]. rewrite bind_Ok. intros H.
    destruct (annotation_sets_of api (ref_id i)) as [response|e] eqn:E;
      [rewrite bind_Ok in H | discriminate].
    apply bind_Ok_inv in H as (results1 & Hstep & Hrest).
    apply (annotation_sets_step_Ok api keyword (Ok response)) in Hstep.
    apply IH in Hrest. subst results1 results'.
    cbn [flat_map]. now rewrite E, <- app_assoc.
Qed.

Lemma keyword_search_Ok (api : server) (collection : Z) (keyword : string)
    (results : list annotation) :
  keyword_search api collection keyword = Ok results ->
  results = List.filter (fun a => annotation_contains_keyword a keyword)
                        (received api collection).
Proof.
  unfold keyword_search, received. rewrite !filter_flat_map.
  destruct (image_sets_of api collection) as [response|e];
    [rewrite bind_Ok | discriminate].
  unfold listed at 3, json.
  destruct (status_code response =? 200); [| now intros [= <-]].
  destruct (body response) as [[items|[|key keys]]|]; try discriminate.
  - rewrite bind_Ok. simpl elements. intros H.
    apply image_sets_loop_Ok in H. subst results. simpl.
    apply flat_map_ext. intros i. now rewrite filter_flat_map.
  - now intros [= <-].
Qed.

(** The results of the traversal: the annotations received, in order, that
    match the keyword. *)
Lemma keyword_search_received (api : server) (collection : Z)
    (keyword : string) :
  well_behaved api ->
  keyword_search api collection keyword
  = Ok (List.filter (fun a => annotation_contains_keyword a keyword)
                    (received api collection)).
Proof.
  intros Hapi. unfold keyword_search, received.
  destruct (proj1 Hapi collection) as (r & E & Hbody).
  rewrite E, bind_Ok.
  rewrite !filter_flat_map.
  destruct (Z.eqb_spec (status_code r) 200) as [E200|E200].
  - destruct (Hbody E200) as [items Hitems]. unfold json.
    rewrite Hitems, bind_Ok. simpl elements.
    rewrite (image_sets_loop_items api keyword Hapi items []).
    rewrite (listed_items (Ok r) r items eq_refl E200 Hitems). simpl.
    f_equal. apply flat_map_ext. intros i. now rewrite filter_flat_map.
  - now rewrite (listed_failed (Ok r) (ex_intro _ r (conj eq_refl E200))).
Qed.

Section Tables.
Variable covers : nat -> nat -> list (list (Z * Z)) -> nat -> nat -> bool.
Variable imdecode : string -> result (option ndarray).
Variable imencode_base64 : ndarray -> result string.

(** The annotation table, when the response carries an array: the cells
    of the crops are computed one after the other, and the frame has the
    rows of the annotations. *)
Lemma annotation_table_items (api : server) (set : Z) (image : ndarray)
    (r : response (listing annotation)) (annotations : list annotation) :
  annotations_of api set = Ok r ->
  body r = Some (Items annotations) ->
  annotation_table covers imencode_base64 api set image
  = (cells ← mapM (image_cell covers imencode_base64 image) annotations;
     Ok {| columns := header; rows := zip_with row_of cells annotations |}).
Proof.
  intros E Hb. unfold annotation_table, json.
  rewrite E, bind_Ok, Hb, bind_Ok. simpl elements.
  rewrite table_loop_cells. 
  destruct (mapM (image_cell covers imencode_base64 image) annotations) as [cells|e] eqn:Em;
    [| reflexivity].
  rewrite !bind_Ok. apply DataFrame_extend.
  apply mapM_Ok in Em. symmetry. exact (Forall2_length _ _ _ Em).
Qed.

(** The status of the response plays no part in the annotation table. *)
Lemma annotation_table_status (api api' : server) (set set' : Z)
    (image : ndarray) (r r' : response (listing annotation)) :
  annotations_of api set = Ok r ->
  annotations_of api' set' = Ok r' ->
  body r = body r' ->
  annotation_table covers imencode_base64 api set image
  = annotation_table covers imencode_base64 api' set' image.
Proof.
  intros E E' Hb. unfold annotation_table, json.
  now rewrite E, E', !bind_Ok, Hb.
Qed.

(** The payload of an error, a JSON object, is looped over as if it were
    the array of the annotations: its first key is a string, and cannot be
    indexed by ['target']. *)
Lemma annotation_table_object (api : server) (set : Z) (image : ndarray)
    (r : response (listing annotation)) (key : string)
    (keys : list string) :
  annotations_of api set = Ok r ->
  body r = Some (Object (key :: keys)) ->
  annotation_table covers imencode_base64 api set image = Raise "TypeError".
Proof.
  intros E Hb. unfold annotation_table, json.
  now rewrite E, bind_Ok, Hb, bind_Ok.
Qed.

Lemma annotation_table_not_json (api : server) (set : Z) (image : ndarray)
    (r : response (listing annotation)) :
  annotations_of api set = Ok r ->
  body r = None ->
  annotation_table covers imencode_base64 api set image
  = Raise "JSONDecodeError".
Proof.
  intros E Hb. unfold annotation_table, json.
  now rewrite E, bind_Ok, Hb.
Qed.

(** A call followed by [json] depends on the body of the response only. *)
Lemma call_json_same {A B} (r r' : result (response A))
    (k k' : A -> result B) :
  same_answer r r' ->
  (forall v, k v = k' v) ->
  (response ← r; v ← json response; k v)
  = (response ← r'; v ← json response; k' v).
Proof.
  intros Hr Hk. destruct r as [x|e], r' as [x'|e']; simpl in Hr;
    try contradiction.
  - rewrite !bind_Ok. unfold json. rewrite Hr. now apply bind_ext.
  - now subst e'.
Qed.

(** No status is looked at in the annotation-table notebook: two servers
    that differ in the status of their responses only give the same
    outcome. *)
Lemma annotation_table_notebook_status (api api' : server) :
  same_answers api api' ->
  annotation_table_notebook covers imdecode imencode_base64 api
  = annotation_table_notebook covers imdecode imencode_base64 api'.
Proof.
  intros (Hc & His & Him & Has & Han & Hinfo & Hcontent).
  unfold annotation_table_notebook.
  apply call_json_same; [exact Hc | intros collections].
  apply call_json_same; [apply His | intros image_sets].
  apply call_json_same; [apply Him | intros images].
  apply bind_ext. intros image_data. cbv zeta.
  apply call_json_same; [apply Hinfo | intros image_info].
  unfold load_image_from_url. rewrite Hcontent.
  apply bind_ext. intros oimage.
  apply bind_ext. intros image.
  apply call_json_same; [apply Has | intros annotation_sets].
  unfold annotation_table.
  apply call_json_same; [apply Han | reflexivity].
Qed.

Lemma call_json_unused {A B} (r r' : result (response A))
    (k : result B) :
  both_json r r' ->
  (response ← r; v ← json response; k)
  = (response ← r'; v ← json response; k).
Proof.
  intros (x & x' & v & v' & -> & -> & Hb & Hb').
  rewrite !bind_Ok. unfold json. now rewrite Hb, Hb'.
Qed.

(** A failed call whose result is only printed goes unnoticed: the outcome
    of the notebook does not depend on the JSON value of the collections,
    of the image sets and of the annotation sets. *)
Lemma annotation_table_notebook_unused (api api' : server) :
  same_used_answers api api' ->
  annotation_table_notebook covers imdecode imencode_base64 api
  = annotation_table_notebook covers imdecode imencode_base64 api'.
Proof.
  intros (Hc & His & Has & Him & Han & Hinfo & Hcontent).
  unfold annotation_table_notebook.
  rewrite (call_json_unused _ _ _ Hc).
  apply bind_ext. intros response. apply bind_ext. intros collections.
  rewrite (call_json_unused _ _ _ His).
  apply bind_ext. intros response1. apply bind_ext. intros image_sets.
  apply call_json_same; [apply Him | intros images].
  apply bind_ext. intros image_data. cbv zeta.
  apply call_json_same; [apply Hinfo | intros image_info].
  unfold load_image_from_url. rewrite Hcontent.
  apply bind_ext. intros oimage.
  apply bind_ext. intros image.
  rewrite (call_json_unused _ _ _ Has).
  apply bind_ext. intros response2. apply bind_ext. intros annotation_sets.
  unfold annotation_table.
  apply call_json_same; [apply Han | reflexivity].
Qed.

Lemma search_table_cells (images : gmap Z (option ndarray))
    (results : list annotation) :
  search_table covers imencode_base64 images results
  = (r ← search_cells covers imencode_base64 images results;
     Ok {| columns := header;
           rows := zip_with row_of (map fst r) (map snd r) |}).
Proof.
  unfold search_table. rewrite search_table_loop_cells.
  destruct (search_cells _ _ images results) as [r|e]; [| reflexivity].
  rewrite !bind_Ok. apply DataFrame_extend. now rewrite !length_map.
Qed.

(** One round of the loop that loads the images leaves the image whose
    fetch fails out of the dictionary. *)
Lemma load_images_absent (api : server) (results : list annotation)
    (images0 images : gmap Z (option ndarray)) (image : Z) :
  fetch_fails api image ->
  images0 !! image = None ->
  load_images imdecode api results images0 = Ok images ->
  images !! image = None.
Proof.
  intros Hfail. revert images0.
  induction results as [|a results IH]; intros images0 H0.
  - now intros [= <-].
  - cbn [load_images]. intros H. cbv zeta in H.
    apply bind_Ok_inv in H as (images1 & Hstep & Hrest).
    apply (IH images1); [| assumption]. clear Hrest IH.
    destruct (images0 !! image_id a) as [oi|] eqn:Ea.
    { now injection Hstep as <-. }
    destruct (decide (image_id a = image)) as [Heq | Hne].
    + rewrite Heq in Hstep. clear Heq Ea.
      destruct Hfail as [(r & E & Hs) | (r & d & E & Hs & Hb & r' & E' & Hs')].
      * rewrite E, bind_Ok in Hstep.
        destruct (Z.eqb_spec (status_code r) 200); [contradiction |].
        now injection Hstep as <-.
      * rewrite E, bind_Ok, Hs in Hstep.
        change (200 =? 200) with true in Hstep. cbv iota in Hstep.
        assert (Hj : json r = Ok d) by (unfold json; now rewrite Hb).
        rewrite Hj, bind_Ok in Hstep. cbv zeta in Hstep.
        rewrite E', bind_Ok in Hstep.
        destruct (Z.eqb_spec (status_code r') 200); [contradiction |].
        now injection Hstep as <-.
    + assert (Hins : forall oi, <[image_id a := oi]> images0 !! image = None)
        by (intros oi; now rewrite lookup_insert_ne).
      destruct (image_of api (image_id a)) as [r|e]; [| discriminate].
      rewrite bind_Ok in Hstep.
      destruct (status_code r =? 200); [| now injection Hstep as <-].
      destruct (json r) as [d|e]; [| discriminate].
      rewrite bind_Ok in Hstep.
      destruct (info_of api _) as [r'|e]; [| discriminate].
      rewrite bind_Ok in Hstep.
      destruct (status_code r' =? 200); [| now injection Hstep as <-].
      destruct (json r') as [info|e]; [| discriminate].
      rewrite bind_Ok in Hstep.
      destruct (load_image_from_url imdecode api _) as [oi|e];
        [| discriminate].
      rewrite bind_Ok in Hstep. injection Hstep as <-. apply Hins.
Qed.

End Tables.

End PipelineFacts.

(** C2, as amended. In the annotation table of one annotation set, when the
    image cell of every annotation is computed without an exception, the
    frame has the five columns Image, Title, Tags, Notes, Line Color and one
    row for each annotation, in input order. In the keyword-search table,
    when every image id is a key of the images dictionary, the same holds
    for the annotations whose image is decoded, and only for them: an
    annotation whose image is [None] has no row. A row has five cells, and
    the cell of an absent field is the empty string. *)
Theorem table_rows
    (covers : nat -> nat -> list (list (Z * Z)) -> nat -> nat -> bool)
    (imencode_base64 : ndarray -> result string)
    (api : server) (set : Z) (image : ndarray)
    (r : response (listing annotation))
    (annotations : list annotation) (cells : list string)
    (images : gmap Z (option ndarray))
    (results : list annotation) (cells' : list string) :
  annotations_of api set = Ok r ->
  body r = Some (Items annotations) ->
  Forall2 (fun a cell => image_cell covers imencode_base64 image a = Ok cell)
          annotations cells ->
  Forall (fun a => is_Some (images !! image_id a)) results ->
  Forall2 (fun a cell => exists image,
             images !! image_id a = Some (Some image) /\
             image_cell covers imencode_base64 image a = Ok cell)
          (List.filter (decoded images) results) cells' ->
  (annotation_table covers imencode_base64 api set image
   = Ok {| columns := header; rows := zip_with row_of cells annotations |} /\
   length (zip_with row_of cells annotations) = length annotations) /\
  (search_table covers imencode_base64 images results
   = Ok {| columns := header;
           rows := zip_with row_of cells'
                     (List.filter (decoded images) results) |} /\
   length (zip_with row_of cells' (List.filter (decoded images) results))
   = length (List.filter (decoded images) results)) /\
  (forall cell a,
     length (row_of cell a) = 5%nat /\
     row_of cell a !! 0%nat = Some cell /\
     (title (fields a) = None -> row_of cell a !! 1%nat = Some EmptyString) /\
     (tag (fields a) = None -> row_of cell a !! 2%nat = Some EmptyString) /\
     (note (fields a) = None -> row_of cell a !! 3%nat = Some EmptyString) /\
     (line_color (fields a) = None ->
      row_of cell a !! 4%nat = Some EmptyString)).
Proof.
  intros E Hb Hcells Hkeys Hcells'. split; [| split].
  - split.
    + rewrite (PipelineFacts.annotation_table_items _ _ _ _ _ _ _ E Hb).
      apply TableFacts.mapM_Ok in Hcells. now rewrite Hcells.
    + rewrite length_zip_with. apply Forall2_length in Hcells. lia.
  - split.
    + rewrite PipelineFacts.search_table_cells.
      rewrite (TableFacts.search_cells_Ok _ _ _ _ _ Hkeys Hcells'), bind_Ok.
      apply Forall2_length in Hcells'.
      rewrite fst_zip, snd_zip by lia. reflexivity.
    + rewrite length_zip_with. apply Forall2_length in Hcells'. lia.
  - intros cell a. unfold row_of. simpl.
    repeat split; now intros ->.
Qed.

Lemma table_rows_witness :
  annotation_table closed_polygon_covers demo_imencode (demo_server 200) 25
                   white_20x20
  = Ok {| columns := header;
          rows := [row_of demo_img robe; row_of demo_img halo;
                   row_of EmptyString fold] |} /\
  search_table closed_polygon_covers demo_imencode demo_images [robe; fold]
  = Ok {| columns := header; rows := [row_of demo_img robe] |}.
Proof.
  destruct (table_rows closed_polygon_covers demo_imencode
              (demo_server 200) 25 white_20x20
              {| status_code := 200; body := Some (Items [robe; halo; fold]) |}
              [robe; halo; fold] [demo_img; demo_img; EmptyString]
              demo_images [robe; fold] [demo_img])
    as [[H1 _] [[H2 _] _]].
  - reflexivity.
  - reflexivity.
  - repeat constructor; vm_compute; reflexivity.
  - repeat constructor; vm_compute; eexists; reflexivity.
  - vm_compute List.filter. repeat constructor.
    exists white_20x20. split; vm_compute; reflexivity.
  - split; [exact H1 | exact H2].
Defined.

(** C2, the claim as stated fails in the keyword-search table: the
    annotation [fold] is one of the results, its image is in the dictionary
    and did not decode, and the table has no row for it. *)
Lemma search_table_skips_undecoded :
  demo_images !! image_id fold = Some None /\
  search_table closed_polygon_covers demo_imencode demo_images [fold]
  = Ok {| columns := header; rows := [] |}.
Proof. split; vm_compute; reflexivity. Qed.

(** C7, as amended. In the keyword search, under a server that answers, the
    results are the matching annotations of the listings that succeeded,
    every one of them checked by the filter; an image set or an annotation
    set whose listing fails is skipped and the loop goes on with the sets
    after it. In the annotation-table notebook no status is looked at, in
    any cell: the outcome depends on the bodies of the responses alone. The
    payload of an error in place of the annotations surfaces as the
    [TypeError] of the table loop on its first key, or as the
    [JSONDecodeError] of [json] when it is not JSON; a failed call whose
    result is only printed (the collections, the image sets, the annotation
    sets) and whose payload is JSON does not surface. *)
Theorem status_checks
    (covers : nat -> nat -> list (list (Z * Z)) -> nat -> nat -> bool)
    (imdecode : string -> result (option ndarray))
    (imencode_base64 : ndarray -> result string)
    (api : server) (collection : Z) (keyword : string) :
  well_behaved api ->
  keyword_search api collection keyword
    = Ok (List.filter (fun a => annotation_contains_keyword a keyword)
                      (received api collection)) /\
  (forall before after bad results,
     failed (annotation_sets_of api (ref_id bad)) ->
     image_sets_loop api keyword (before ++ inl bad :: after) results
     = image_sets_loop api keyword (before ++ after) results) /\
  (forall before after bad results,
     failed (annotations_of api (ref_id bad)) ->
     annotation_sets_loop api keyword (before ++ inl bad :: after) results
     = annotation_sets_loop api keyword (before ++ after) results) /\
  (forall api',
     same_answers api api' ->
     annotation_table_notebook covers imdecode imencode_base64 api
     = annotation_table_notebook covers imdecode imencode_base64 api') /\
  (forall api',
     same_used_answers api api' ->
     annotation_table_notebook covers imdecode imencode_base64 api
     = annotation_table_notebook covers imdecode imencode_base64 api') /\
  (forall api' set set' image r r',
     annotations_of api set = Ok r ->
     annotations_of api' set' = Ok r' ->
     body r = body r' ->
     annotation_table covers imencode_base64 api set image
     = annotation_table covers imencode_base64 api' set' image) /\
  (forall set image r key keys,
     annotations_of api set = Ok r ->
     body r = Some (Object (key :: keys)) ->
     annotation_table covers imencode_base64 api set image
     = Raise "TypeError") /\
  (forall set image r,
     annotations_of api set = Ok r ->
     body r = None ->
     annotation_table covers imencode_base64 api set image
     = Raise "JSONDecodeError").
Proof.
  intros Hapi. repeat split.
  - now apply PipelineFacts.keyword_search_received.
  - intros. now apply PipelineFacts.image_sets_loop_skips.
  - intros. now apply PipelineFacts.annotation_sets_loop_skips.
  - intros. now apply PipelineFacts.annotation_table_notebook_status.
  - intros. now apply PipelineFacts.annotation_table_notebook_unused.
  - intros. eapply PipelineFacts.annotation_table_status; eassumption.
  - intros. eapply PipelineFacts.annotation_table_object; eassumption.
  - intros. eapply PipelineFacts.annotation_table_not_json; eassumption.
Qed.

Lemma status_checks_witness :
  keyword_search (demo_server 200) 11 "robe" = Ok [robe; fold] /\
  annotation_table closed_polygon_covers demo_imencode (demo_server 200) 30
                   white_20x20
  = Raise "TypeError".
Proof.
  destruct (status_checks closed_polygon_covers demo_imdecode demo_imencode
              (demo_server 200) 11 "robe")
    as (H1 & _ & _ & _ & _ & _ & H5 & _).
  - repeat split; intros i; eexists; (split; [reflexivity |]);
      match goal with
      | |- context [i =? ?n] => destruct (i =? n)
      end; simpl; intros; (discriminate || eauto).
  - split; [exact H1 |].
    exact (H5 30 white_20x20 not_found "message" [] eq_refl eq_refl).
Defined.

(** C7, the claim as stated fails in the annotation-table notebook: the
    listing of the image sets fails, with status 500 and the payload of an
    error, and nothing surfaces; the notebook builds the table of the three
    annotations, since it only prints the image sets. *)
Lemma annotation_table_notebook_unnoticed_failure :
  failed (image_sets_of (with_failing_image_sets (demo_server 200)) 11) /\
  annotation_table_notebook closed_polygon_covers demo_imdecode demo_imencode
                            (with_failing_image_sets (demo_server 200))
  = Ok {| columns := header;
          rows := [row_of demo_img robe; row_of demo_img halo;
                   row_of EmptyString fold] |}.
Proof.
  split.
  - eexists. split; [reflexivity | discriminate].
  - vm_compute. reflexivity.
Qed.

(** The traversal of the example: the failing image set 30 yields nothing,
    the image set 31 after it is visited. *)
Example keyword_search_demo :
  listed (annotation_sets_of (demo_server 200) 30) = [] /\
  received (demo_server 200) 11 = [robe; halo; fold] /\
  keyword_search (demo_server 200) 11 "robe" = Ok [robe; fold].
Proof. repeat apply conj; reflexivity. Qed.



(** Nothing is merged: an annotation that comes twice has two rows. *)
Example search_table_keeps_duplicates :
  search_table closed_polygon_covers demo_imencode demo_images
               [robe; robe; halo; robe]
  = Ok {| columns := header;
          rows := [row_of demo_img robe; row_of demo_img robe;
                   row_of demo_img halo; row_of demo_img robe] |}.
Proof. vm_compute. reflexivity. Qed.

(** C9. In the keyword-search table, an annotation of the results whose
    image id is not a key of the images dictionary makes the lookup raise:
    the build never returns a table, and the exception is the [KeyError] of
    this annotation when the annotations before it went through. Such is
    every annotation whose image could not be fetched, the fetch of the
    image or of its [info.json] having another status than 200: the loop
    that loads the images leaves its id out of the dictionary. *)
Theorem search_table_missing_image
    (covers : nat -> nat -> list (list (Z * Z)) -> nat -> nat -> bool)
    (imdecode : string -> result (option ndarray))
    (imencode_base64 : ndarray -> result string)
    (api : server) (results : list annotation) (a : annotation) :
  In a results ->
  (forall images,
     images !! image_id a = None ->
     (exists e,
        search_table covers imencode_base64 images results = Raise e) /\
     (forall pre post t,
        results = pre ++ a :: post ->
        search_table_loop covers imencode_base64 images pre empty_table
          = Ok t ->
        search_table covers imencode_base64 images results
          = Raise "KeyError")) /\
  (forall images,
     fetch_fails api (image_id a) ->
     load_images imdecode api results ∅ = Ok images ->
     images !! image_id a = None).
Proof.
  intros Hin. split.
  - intros images Hnone. split.
    + destruct (TableFacts.search_table_loop_missing covers imencode_base64
                  images results a empty_table Hin Hnone) as [e He].
      exists e. unfold search_table. now rewrite He.
    + intros pre post t -> Hpre. unfold search_table.
      rewrite TableFacts.search_table_loop_app, Hpre, bind_Ok.
      cbn [search_table_loop]. now rewrite Hnone.
  - intros images Hfail Hload.
    eapply PipelineFacts.load_images_absent; [exact Hfail | | exact Hload].
    apply lookup_empty.
Qed.

Lemma search_table_missing_image_witness :
  load_images demo_imdecode (demo_server 404) [robe; fold] ∅
    = Ok (<[7 := Some white_20x20]> ∅) /\
  (<[7 := Some white_20x20]> ∅ : gmap Z (option ndarray)) !! 8 = None /\
  search_table closed_polygon_covers demo_imencode
               (<[7 := Some white_20x20]> ∅) [robe; fold]
  = Raise "KeyError".
Proof.
  destruct (search_table_missing_image closed_polygon_covers demo_imdecode
              demo_imencode (demo_server 404) [robe; fold] fold)
    as (H1 & H2).
  - right. left. reflexivity.
  - assert (Hload : load_images demo_imdecode (demo_server 404) [robe; fold] ∅
                    = Ok (<[7 := Some white_20x20]> ∅))
      by (vm_compute; reflexivity).
    assert (Hfail : fetch_fails (demo_server 404) (image_id fold)).
    { left. eexists. split; [reflexivity | vm_compute; discriminate]. }
    pose proof (H2 _ Hfail Hload) as Hnone.
    destruct (H1 _ Hnone) as [_ H3].
    split; [exact Hload |]. split; [exact Hnone |].
    eapply (H3 [robe] []); [reflexivity | vm_compute; reflexivity].
Defined.

(** The annotation-table notebook on the server of the examples: the three
    annotations of annotation set 25, one row each, in their order. *)
Example annotation_table_notebook_demo :
  annotation_table_notebook closed_polygon_covers demo_imdecode demo_imencode
                            (demo_server 200)
  = Ok {| columns := header;
          rows := [row_of demo_img robe; row_of demo_img halo;
                   row_of EmptyString fold] |}.
Proof. vm_compute. reflexivity. Qed.

(** * Further properties of the notebooks' code *)

(** ** Polygon extractor *)

Module ExtractorMore.
Import Str StrFacts ExtractorFacts.

Lemma length_split (c : ascii) (s : string) :
  length (split c s) = S (occurrences c s).
Proof.
  induction s as [|d s IH]; [reflexivity |].
  cbn [split occurrences]. destruct (Ascii.eqb d c).
  - simpl. now rewrite IH.
  - destruct (split c s) as [|w ws]; simpl in *; lia.
Qed.

Lemma parse_points_length (tokens : list string) (acc pts : list (Z * Z)) :
  parse_points tokens acc = Ok pts ->
  length pts = (length acc + length tokens)%nat.
Proof.
  revert acc. induction tokens as [|t ts IH]; intros acc; simpl.
  - intros [= <-]. lia.
  - intros H. apply bind_Ok_inv in H as (p & _ & H).
    apply IH in H. rewrite length_app in H. simpl in H. lia.
Qed.

End ExtractorMore.

(** X1. Whatever the selector, [extract_polygon_points] returns one point
    for each field that the single spaces cut out of the second
    quote-delimited field: one more than there are spaces in it, and so
    never an empty list. *)
Theorem extract_polygon_points_count (selector : string)
    (pts : list (Z * Z)) :
  extract_polygon_points selector = Ok pts ->
  exists value,
    nth_error (Str.split dquote selector) 1 = Some value /\
    length pts = S (occurrences " " value) /\
    pts <> [].
Proof.
  unfold extract_polygon_points.
  destruct (Str.split dquote selector) as [|a [|value rest]];
    try discriminate.
  intros H. exists value. split; [reflexivity |].
  apply ExtractorMore.parse_points_length in H.
  rewrite ExtractorMore.length_split in H. simpl in H.
  split; [exact H |]. intros ->. discriminate.
Qed.

Lemma extract_polygon_points_count_witness :
  exists value,
    nth_error (Str.split dquote (svg_polygon "1.5,2 3,4.25 5,6")) 1
      = Some value /\
    length [(1, 2); (3, 4); (5, 6)] = S (occurrences " " value) /\
    [(1, 2); (3, 4); (5, 6)] <> [].
Proof.
  apply (extract_polygon_points_count (svg_polygon "1.5,2 3,4.25 5,6")).
  vm_compute. reflexivity.
Defined.

Module IntegerFacts.
Import Str StrFacts PyFloat.

Lemma none_cons (p : ascii -> bool) (c : ascii) (s : string) :
  none p (String c s) = negb (p c) && none p s.
Proof. reflexivity. Qed.

Lemma digit_cases (c : ascii) :
  is_digit c = true ->
  c = "0"%char \/ c = "1"%char \/ c = "2"%char \/ c = "3"%char \/
  c = "4"%char \/ c = "5"%char \/ c = "6"%char \/ c = "7"%char \/
  c = "8"%char \/ c = "9"%char.
Proof.
  destruct c as [[] [] [] [] [] [] [] []]; vm_compute; try discriminate;
    intros _; tauto.
Qed.

Lemma uint_digits (d : Decimal.uint) :
  all_digits (NilEmpty.string_of_uint d) = true.
Proof. unfold all_digits. induction d; simpl; auto. Qed.

Lemma uint_value_acc (d : Decimal.uint) (acc : positive) :
  digits_value (Z.pos acc) (NilEmpty.string_of_uint d)
  = Z.pos (Pos.of_uint_acc d acc).
Proof.
  revert acc. induction d; intros acc; cbn [NilEmpty.string_of_uint
    digits_value Pos.of_uint_acc]; try reflexivity;
    rewrite <- IHd; f_equal; vm_compute N_of_ascii; lia.
Qed.

Lemma uint_value (d : Decimal.uint) :
  digits_value 0 (NilEmpty.string_of_uint d) = Z.of_N (Pos.of_uint d).
Proof.
  induction d; cbn [NilEmpty.string_of_uint digits_value Pos.of_uint];
    try reflexivity; try exact IHd;
    exact (uint_value_acc d _).
Qed.

Lemma lstrip_digit (c : ascii) (t : string) :
  is_space c = false -> lstrip (String c t) = String c t.
Proof. intros H. simpl. now rewrite H. Qed.

Lemma rstrip_no_space (s : string) :
  none is_space s = true -> rstrip s = s.
Proof.
  induction s as [|c s IH]; [reflexivity |].
  simpl. intros H. apply andb_true_iff in H as [Hc Hs].
  apply negb_true_iff in Hc. rewrite (IH Hs), Hc. now destruct s.
Qed.

Lemma drop_underscores_none (prev : bool) (s : string) :
  none (fun c => Ascii.eqb c "_") s = true ->
  drop_underscores prev s = Some s.
Proof.
  revert prev. induction s as [|c s IH]; intros prev; [reflexivity |].
  simpl. intros H. apply andb_true_iff in H as [Hc Hs].
  apply negb_true_iff in Hc. rewrite Hc, (IH _ Hs). reflexivity.
Qed.

Lemma take_digits_all (s : string) :
  all_digits s = true -> take_digits s = (s, EmptyString).
Proof.
  unfold all_digits. induction s as [|c s IH]; [reflexivity |].
  simpl. intros H. apply andb_true_iff in H as [Hc Hs].
  apply negb_true_iff, negb_false_iff in Hc. now rewrite Hc, (IH Hs).
Qed.

Lemma digits_no_space (s : string) :
  all_digits s = true -> none is_space s = true.
Proof.
  unfold all_digits. apply none_weaken. intros c Hc.
  destruct (is_digit c) eqn:E; [| reflexivity].
  destruct (digit_cases c E) as [-> | [-> | [-> | [-> | [-> | [-> | [-> |
    [-> | [-> | ->]]]]]]]]]; discriminate.
Qed.

Lemma digits_no_underscore (s : string) :
  all_digits s = true -> none (fun c => Ascii.eqb c "_") s = true.
Proof.
  unfold all_digits. apply none_weaken. intros c Hc.
  destruct (is_digit c) eqn:E; [| reflexivity].
  destruct (digit_cases c E) as [-> | [-> | [-> | [-> | [-> | [-> | [-> |
    [-> | [-> | ->]]]]]]]]]; discriminate.
Qed.

(** The float of an integer below [2^53] is the integer itself. *)
Lemma round_binary64_exact (neg : bool) (p : Z) :
  0 <= p < 2 ^ 53 ->
  int_of_float (round_binary64 neg p 1) = Ok (if neg then - p else p).
Proof.
  intros [Hp0 Hp]. unfold round_binary64.
  destruct (Z.eqb_spec p 0) as [-> | Hnz].
  { simpl. now destruct neg. }
  assert (Hpos : 0 < p) by lia.
  change (Z.log2 1) with 0. rewrite Z.sub_0_r.
  pose proof (Z.log2_nonneg p) as Hl0.
  pose proof (Z.log2_spec p Hpos) as [Hlow _].
  assert (Hl : Z.log2 p < 53) by now apply Z.log2_lt_pow2.
  destruct (Z.leb_spec 0 (Z.log2 p)); [| lia].
  destruct (Z.ltb_spec p (1 * 2 ^ Z.log2 p)); [lia |].
  rewrite Z.max_l by lia.
  set (u := Z.log2 p - 52).
  assert (Hu : -52 <= u <= 0) by (unfold u; lia).
  destruct (Z.ltb_spec 971 u); [lia |].
  destruct (Z.eqb_spec u 971); [lia |]. rewrite andb_false_r. simpl orb.
  destruct (Z.leb_spec 0 u).
  - assert (u = 0) as -> by lia.
    change (1 * 2 ^ 0) with 1. rewrite Z.div_1_r, Z.mod_1_r.
    change (2 * 0 <? 1) with true. cbv iota. cbn [int_of_float].
    change (0 <=? 0) with true. cbv iota. now rewrite Z.mul_1_r.
  - rewrite Z.div_1_r, Z.mod_1_r.
    change (2 * 0 <? 1) with true. cbv iota. cbn [int_of_float].
    destruct (Z.leb_spec 0 u); [lia |].
    rewrite Z.div_mul; [reflexivity |].
    apply Z.pow_nonzero; lia.
Qed.

(** [int(float(s))] on a string of decimal digits of value below [2^53]. *)
Lemma int_float_digits (neg : bool) (s : string) :
  s <> EmptyString ->
  all_digits s = true ->
  digits_value 0 s < 2 ^ 53 ->
  int_float (if neg then String "-" s else s)
  = Ok (if neg then - digits_value 0 s else digits_value 0 s).
Proof.
  intros Hne Hd Hv.
  assert (Hv0 : 0 <= digits_value 0 s).
  { clear Hne Hv. assert (G : forall acc, 0 <= acc -> 0 <= digits_value acc s).
    { unfold all_digits in Hd.
      induction s as [|c s IH]; intros acc Hacc; [exact Hacc |].
      simpl in Hd. apply andb_true_iff in Hd as [Hc Hs].
      apply negb_true_iff, negb_false_iff in Hc.
      cbn [digits_value]. apply (IH Hs).
      destruct (digit_cases c Hc) as [-> | [-> | [-> | [-> | [-> | [-> | [-> |
        [-> | [-> | ->]]]]]]]]]; vm_compute N_of_ascii; lia. }
    apply G. lia. }
  destruct s as [|c t]; [congruence |].
  pose proof Hd as Hd'. unfold all_digits in Hd'. simpl in Hd'.
  apply andb_true_iff in Hd' as [Hc _].
  apply negb_true_iff, negb_false_iff in Hc.
  unfold int_float, float_of_string.
  assert (Hstrip : rstrip (lstrip (if neg then String "-" (String c t)
                                   else String c t))
                   = if neg then String "-" (String c t) else String c t).
  { destruct neg.
    - rewrite lstrip_digit by reflexivity.
      apply rstrip_no_space. rewrite none_cons, digits_no_space by exact Hd.
      reflexivity.
    - pose proof (digits_no_space _ Hd) as Hs.
      pose proof Hs as Hs'. rewrite none_cons in Hs'.
      apply andb_true_iff in Hs' as [Hc' _]. apply negb_true_iff in Hc'.
      rewrite lstrip_digit by exact Hc'. now apply rstrip_no_space. }
  rewrite Hstrip.
  assert (Hdrop : drop_underscores false
                    (if neg then String "-" (String c t) else String c t)
                  = Some (if neg then String "-" (String c t) else String c t)).
  { apply drop_underscores_none. destruct neg.
    - rewrite none_cons, digits_no_underscore by exact Hd. reflexivity.
    - now apply digits_no_underscore. }
  rewrite Hdrop.
  assert (Hsign : take_sign (if neg then String "-" (String c t)
                             else String c t) = (neg, String c t)).
  { destruct neg; [reflexivity |].
    destruct (digit_cases c Hc) as [-> | [-> | [-> | [-> | [-> | [-> | [-> |
      [-> | [-> | ->]]]]]]]]]; reflexivity. }
  rewrite Hsign.
  assert (Hlow : (String.eqb (lower (String c t)) "inf"
                  || String.eqb (lower (String c t)) "infinity") = false
                 /\ String.eqb (lower (String c t)) "nan" = false).
  { destruct (digit_cases c Hc) as [-> | [-> | [-> | [-> | [-> | [-> | [-> |
      [-> | [-> | ->]]]]]]]]]; split; reflexivity. }
  destruct Hlow as [-> ->].
  unfold parse_decimal. rewrite (take_digits_all _ Hd).
  rewrite append_nil_r. cbn [String.length Nat.add Nat.eqb].
  cbn [Z.of_nat Z.opp]. rewrite bind_Ok.
  unfold decimal_to_float. change (0 <=? 0) with true. cbv iota.
  change (10 ^ 0) with 1. rewrite Z.mul_1_r.
  apply round_binary64_exact. lia.
Qed.

Lemma str_of_int_cases (z : Z) :
  exists (neg : bool) (s : string),
    str_of_int z = (if neg then String "-" s else s) /\
    s <> EmptyString /\ all_digits s = true /\
    z = (if neg then - digits_value 0 s else digits_value 0 s).
Proof.
  unfold str_of_int. destruct z as [|p|p]; cbn [Z.to_int NilZero.string_of_int].
  - exists false, "0". repeat split. discriminate.
  - exists false, (NilEmpty.string_of_uint (Pos.to_uint p)).
    pose proof (Unsigned.to_uint_nonnil p) as Hnn.
    assert (E : NilZero.string_of_uint (Pos.to_uint p)
                = NilEmpty.string_of_uint (Pos.to_uint p))
      by (destruct (Pos.to_uint p); congruence || reflexivity).
    rewrite E. repeat split.
    + destruct (Pos.to_uint p); congruence || discriminate.
    + apply uint_digits.
    + now rewrite uint_value, Unsigned.of_to.
  - exists true, (NilEmpty.string_of_uint (Pos.to_uint p)).
    pose proof (Unsigned.to_uint_nonnil p) as Hnn.
    assert (E : NilZero.string_of_uint (Pos.to_uint p)
                = NilEmpty.string_of_uint (Pos.to_uint p))
      by (destruct (Pos.to_uint p); congruence || reflexivity).
    rewrite E. repeat split.
    + destruct (Pos.to_uint p); congruence || discriminate.
    + apply uint_digits.
    + now rewrite uint_value, Unsigned.of_to.
Qed.

(** Printing an integer below [2^53] in absolute value and reading it back
    with [int(float(.))] gives the integer. *)
Lemma int_float_str_of_int (z : Z) :
  Z.abs z < 2 ^ 53 -> PyFloat.int_float (str_of_int z) = Ok z.
Proof.
  intros Hz. destruct (str_of_int_cases z) as (neg & s & -> & Hne & Hd & Hval).
  rewrite (int_float_digits neg s Hne Hd); [now rewrite Hval |].
  destruct neg; lia.
Qed.

Lemma str_of_int_clean (z : Z) : clean_coordinate (str_of_int z) = true.
Proof.
  destruct (str_of_int_cases z) as (neg & s & -> & _ & Hd & _).
  assert (Hs : clean_coordinate s = true).
  { revert Hd. unfold all_digits. apply none_weaken. intros c Hc.
    destruct (is_digit c) eqn:E; [| reflexivity].
    destruct (digit_cases c E) as [-> | [-> | [-> | [-> | [-> | [-> | [-> |
      [-> | [-> | ->]]]]]]]]]; discriminate. }
  destruct neg; [| exact Hs].
  unfold clean_coordinate in *. now rewrite none_cons, Hs.
Qed.

End IntegerFacts.

Lemma rendered_valued (pts : list (Z * Z)) :
  Forall (fun p => Z.abs (fst p) < 2 ^ 53 /\ Z.abs (snd p) < 2 ^ 53) pts ->
  coords_valued (map render_point pts) pts.
Proof.
  induction 1 as [|[x y] pts [Hx Hy] _ IH]; simpl; constructor; trivial.
  unfold numeric. simpl in *.
  repeat split; auto using IntegerFacts.str_of_int_clean,
    IntegerFacts.int_float_str_of_int.
Qed.

(** X2. Round trip: a polygon of integer vertices, of coordinates below
    [2^53] in absolute value, printed as a selector with its coordinates in
    decimal, is read back as it is. *)
Theorem extract_polygon_points_round_trip (pts : list (Z * Z)) :
  pts <> [] ->
  Forall (fun p => Z.abs (fst p) < 2 ^ 53 /\ Z.abs (snd p) < 2 ^ 53) pts ->
  extract_polygon_points (svg_polygon (render_points pts)) = Ok pts.
Proof.
  intros Hne Hall. pose proof (rendered_valued pts Hall) as Hv.
  assert (Hne' : map render_point pts <> []) by now destruct pts.
  unfold svg_polygon, render_points, extract_polygon_points.
  rewrite (StrFacts.append_cons dquote).
  rewrite StrFacts.split_app_sep by reflexivity.
  rewrite StrFacts.split_app_sep
    by exact (ExtractorFacts.points_value_no_dquote _ _ Hv).
  rewrite (ExtractorFacts.split_points_value _ _ Hne' Hv).
  exact (ExtractorFacts.parse_points_tokens _ _ [] Hv).
Qed.

Lemma extract_polygon_points_round_trip_witness :
  extract_polygon_points
    (svg_polygon (render_points [(0, 0); (-3, 12); (4096, 9007199254740991)]))
  = Ok [(0, 0); (-3, 12); (4096, 9007199254740991)].
Proof.
  apply (extract_polygon_points_round_trip
           [(0, 0); (-3, 12); (4096, 9007199254740991)]).
  - discriminate.
  - repeat constructor; simpl; lia.
Defined.

(** X3. Whatever the selector, [extract_polygon_points] returns a point
    list or raises one of three exceptions: [IndexError], and this exactly
    when the selector holds no double quote, [ValueError] or
    [OverflowError]. *)
Theorem extract_polygon_points_exceptions (selector : string) :
  (extract_polygon_points selector = Raise "IndexError" <->
   Str.mem dquote selector = false) /\
  (forall e,
     extract_polygon_points selector = Raise e ->
     e = "IndexError" \/ e = "ValueError" \/ e = "OverflowError").
Proof.
  split.
  - split; [| apply ExtractorFacts.split_without_second].
    unfold extract_polygon_points. intros H.
    destruct (Str.mem dquote selector) eqn:E; [exfalso | reflexivity].
    destruct (Str.split dquote selector) as [|a [|value rest]] eqn:Es.
    + now apply StrFacts.split_not_nil in Es.
    + pose proof (ExtractorMore.length_split dquote selector) as Hl.
      rewrite Es in Hl. simpl in Hl.
      assert (Ho : occurrences dquote selector = 0%nat) by lia.
      clear -E Ho. induction selector as [|c s IH]; [discriminate |].
      simpl in E, Ho. destruct (Ascii.eqb c dquote); [discriminate |].
      simpl in E, Ho. auto.
    + apply ExtractorFacts.parse_points_raises in H as [H | H];
        discriminate.
  - intros e. unfold extract_polygon_points.
    destruct (Str.split dquote selector) as [|a [|value rest]];
      try (intros [= <-]; now left).
    intros H. right. exact (ExtractorFacts.parse_points_raises _ _ _ H).
Qed.

(** ** Cropper *)

Module CropperMore.
Import CropperFacts.

Lemma lookup_map {A B} (f : A -> B) (l : list A) (i : nat) :
  map f l !! i = f <$> l !! i.
Proof.
  revert i. induction l as [|a l IH]; intros [|i]; simpl; auto.
Qed.

Lemma lookup_slice {A} (lo hi : nat) (l : list A) (i : nat) :
  (i < hi - lo)%nat -> slice lo hi l !! i = l !! (lo + i)%nat.
Proof.
  intros Hi. unfold slice. now rewrite lookup_take_lt, lookup_drop.
Qed.

(** An entry of a slice is the entry of the array at the shifted place. *)
Lemma entry_slice2 (a : ndarray) (y0 y1 x0 x1 i j c : nat) :
  (i < y1 - y0)%nat -> (j < x1 - x0)%nat ->
  entry (slice2 a y0 y1 x0 x1) i j c = entry a (y0 + i) (x0 + j) c.
Proof.
  intros Hi Hj. unfold slice2, entry.
  destruct (shape a) as [[h w] ch]. cbn [data].
  rewrite lookup_map, lookup_slice by assumption.
  destruct (data a !! (y0 + i)%nat) as [row|]; [| reflexivity].
  simpl. now rewrite lookup_slice.
Qed.

Lemma land_255 (v : Z) : 0 <= v < 256 -> Z.land v 255 = v.
Proof.
  intros Hv. change 255 with (Z.ones 8).
  rewrite Z.land_ones by lia. apply Z.mod_small. simpl. lia.
Qed.

Lemma all_bytes_uint8 (a : ndarray) : all_bytes a = true -> uint8 a.
Proof.
  unfold all_bytes, uint8, entry. intros Hall y x c v H.
  destruct (data a !! y) as [row|] eqn:Er; [simpl in H | discriminate].
  destruct (row !! x) as [px|] eqn:Ep; [simpl in H | discriminate].
  apply list_elem_of_lookup_2, list_elem_of_In in Er, Ep, H.
  rewrite forallb_forall in Hall. specialize (Hall _ Er).
  rewrite forallb_forall in Hall. specialize (Hall _ Ep).
  rewrite forallb_forall in Hall. specialize (Hall _ H).
  lia.
Qed.

End CropperMore.

(** X4. Whenever [crop_image] returns, its crop is a window of the masked
    image: it starts at the least row and the least column of an entry that
    is not zero, stops before the greatest row and the greatest column of
    one, and holds the entries of the masked image in between. *)
Theorem crop_image_window
    (covers : nat -> nat -> list (list (Z * Z)) -> nat -> nat -> bool)
    (image : ndarray) (points : list (Z * Z)) (crop : ndarray) :
  crop_image covers image points = Ok crop ->
  exists y0 y1 x0 x1,
    (forall y x c, In (y, x, c) (where_nonzero (masked covers image points)) ->
       (y0 <= y <= y1)%nat /\ (x0 <= x <= x1)%nat) /\
    (exists x c, In (y0, x, c) (where_nonzero (masked covers image points))) /\
    (exists x c, In (y1, x, c) (where_nonzero (masked covers image points))) /\
    (exists y c, In (y, x0, c) (where_nonzero (masked covers image points))) /\
    (exists y c, In (y, x1, c) (where_nonzero (masked covers image points))) /\
    shape crop = ((y1 - y0)%nat, (x1 - x0)%nat, snd (shape image)) /\
    (forall i j c, (i < y1 - y0)%nat -> (j < x1 - x0)%nat ->
       entry crop i j c
       = entry (masked covers image points) (y0 + i) (x0 + j) c).
Proof.
  intros Hc.
  assert (Hne : where_nonzero (masked covers image points) <> []).
  { intros E. rewrite CropperFacts.crop_image_masked, E in Hc. discriminate. }
  destruct (CropperFacts.crop_image_bounds covers image points Hne)
    as (y0 & y1 & x0 & x1 & Hy0 & Hy1 & Hx0 & Hx1 & Hcrop & _).
  rewrite Hcrop in Hc. injection Hc as <-.
  apply CropperFacts.np_min_spec in Hy0 as [Iy0 Hy0], Hx0 as [Ix0 Hx0].
  apply CropperFacts.np_max_spec in Hy1 as [Iy1 Hy1], Hx1 as [Ix1 Hx1].
  exists y0, y1, x0, x1.
  assert (Hin : forall y x c,
            In (y, x, c) (where_nonzero (masked covers image points)) ->
            In y (map (fun i => fst (fst i))
                      (where_nonzero (masked covers image points))) /\
            In x (map (fun i => snd (fst i))
                      (where_nonzero (masked covers image points)))).
  { intros y x c H. split; apply in_map_iff; exists (y, x, c); auto. }
  split.
  { intros y x c H. destruct (Hin y x c H) as [Hy Hx].
    specialize (Hy0 _ Hy). specialize (Hy1 _ Hy).
    specialize (Hx0 _ Hx). specialize (Hx1 _ Hx). lia. }
  apply in_map_iff in Iy0 as ([[ya xa] ca] & Ea & Ia).
  apply in_map_iff in Iy1 as ([[yb xb] cb] & Eb & Ib).
  apply in_map_iff in Ix0 as ([[yc xc] cc] & Ec & Ic).
  apply in_map_iff in Ix1 as ([[yd xd] cd] & Ed & Id).
  simpl in Ea, Eb, Ec, Ed. subst ya yb xc xd.
  split; [eauto |]. split; [eauto |]. split; [eauto |]. split; [eauto |].
  split.
  - apply CropperFacts.In_where_nonzero in Ib as (vb & Hb & _).
    apply CropperFacts.In_where_nonzero in Id as (vd & Hd & _).
    apply CropperFacts.entry_masked in Hb, Hd.
    destruct (Hin _ _ _ Ia) as [Hya _]. destruct (Hin _ _ _ Ic) as [_ Hxc].
    specialize (Hy1 _ Hya). specialize (Hx1 _ Hxc).
    unfold slice2. rewrite CropperFacts.shape_masked.
    destruct (shape image) as [[h w] ch]. cbn [shape fst snd].
    destruct Hb as (Hy1h & _), Hd as (_ & Hx1w & _).
    unfold slice_length. repeat f_equal; lia.
  - intros i j c Hi Hj. now apply CropperMore.entry_slice2.
Qed.

Lemma crop_image_window_witness :
  exists y0 y1 x0 x1,
    (forall y x c,
       In (y, x, c)
          (where_nonzero (masked closed_polygon_covers white_20x20 square)) ->
       (y0 <= y <= y1)%nat /\ (x0 <= x <= x1)%nat) /\
    (exists x c,
       In (y0, x, c)
          (where_nonzero (masked closed_polygon_covers white_20x20 square))) /\
    (exists x c,
       In (y1, x, c)
          (where_nonzero (masked closed_polygon_covers white_20x20 square))) /\
    (exists y c,
       In (y, x0, c)
          (where_nonzero (masked closed_polygon_covers white_20x20 square))) /\
    (exists y c,
       In (y, x1, c)
          (where_nonzero (masked closed_polygon_covers white_20x20 square))) /\
    shape (slice2 (masked closed_polygon_covers white_20x20 square) 0 10 0 10)
    = ((y1 - y0)%nat, (x1 - x0)%nat, snd (shape white_20x20)) /\
    (forall i j c, (i < y1 - y0)%nat -> (j < x1 - x0)%nat ->
       entry (slice2 (masked closed_polygon_covers white_20x20 square)
                     0 10 0 10) i j c
       = entry (masked closed_polygon_covers white_20x20 square)
               (y0 + i) (x0 + j) c).
Proof.
  apply (crop_image_window closed_polygon_covers white_20x20 square).
  vm_compute. reflexivity.
Defined.


(** X6. On an image of bytes, the masked image keeps the entries of the
    pixels that the polygon covers and is zero everywhere else; it has no
    entry outside the shape of the image. *)
Theorem masked_entries
    (covers : nat -> nat -> list (list (Z * Z)) -> nat -> nat -> bool)
    (image : ndarray) (points : list (Z * Z)) (y x c : nat) (v : Z) :
  uint8 image ->
  entry (masked covers image points) y x c = Some v ->
  (y < fst (fst (shape image)))%nat /\
  (x < snd (fst (shape image)))%nat /\
  exists iv,
    entry image y x c = Some iv /\
    v = if covers (fst (fst (shape image))) (snd (fst (shape image)))
                  [points] y x
        then iv else 0.
Proof.
  intros Hu H. apply CropperFacts.entry_masked in H.
  destruct (shape image) as [[h w] ch]. cbn [fst snd].
  destruct H as (Hy & Hx & iv & Hiv & ->).
  split; [assumption |]. split; [assumption |].
  exists iv. split; [assumption |].
  destruct (covers h w [points] y x).
  - apply CropperMore.land_255. exact (Hu _ _ _ _ Hiv).
  - apply Z.land_0_r.
Qed.

Lemma masked_entries_witness :
  (5 < fst (fst (shape white_20x20)))%nat /\
  (14 < snd (fst (shape white_20x20)))%nat /\
  exists iv,
    entry white_20x20 5 14 1 = Some iv /\
    0 = if closed_polygon_covers (fst (fst (shape white_20x20)))
                                 (snd (fst (shape white_20x20)))
                                 [square] 5 14
        then iv else 0.
Proof.
  apply (masked_entries closed_polygon_covers white_20x20 square 5 14 1 0).
  - apply CropperMore.all_bytes_uint8. vm_compute. reflexivity.
  - vm_compute. reflexivity.
Defined.



(** ** Keyword filter *)

Module KeywordMore.
Import Str StrFacts KeywordFacts.

Lemma lower_char_idempotent (c : ascii) :
  lower_char (lower_char c) = lower_char c.
Proof. destruct c as [[] [] [] [] [] [] [] []]; reflexivity. Qed.

Lemma lower_idempotent (s : string) : lower (lower s) = lower s.
Proof.
  induction s as [|c s IH]; [reflexivity |].
  simpl. now rewrite lower_char_idempotent, IH.
Qed.




Lemma matches_lower (keyword keyword' value : string) :
  lower keyword = lower keyword' ->
  matches keyword value = matches keyword' value.
Proof. unfold matches. now intros ->. Qed.


Lemma existsb_same {A} (f g : A -> bool) (l : list A) :
  (forall x, f x = g x) -> existsb f l = existsb g l.
Proof.
  intros H. induction l as [|x l IH]; [reflexivity |].
  simpl. now rewrite H, IH.
Qed.

End KeywordMore.

(** X8. The case of the keyword does not matter: two keywords that agree in
    lower case select the same annotations, and so do a keyword and its
    lower case. *)
Theorem annotation_contains_keyword_case (a : annotation)
    (keyword keyword' : string) :
  Str.lower keyword = Str.lower keyword' ->
  annotation_contains_keyword a keyword
  = annotation_contains_keyword a keyword' /\
  annotation_contains_keyword a (Str.lower keyword)
  = annotation_contains_keyword a keyword.
Proof.
  intros H. rewrite !KeywordFacts.annotation_contains_keyword_orb. split.
  - f_equal; apply KeywordMore.existsb_same; intros x;
      now apply KeywordMore.matches_lower.
  - f_equal; apply KeywordMore.existsb_same; intros x;
      apply KeywordMore.matches_lower, KeywordMore.lower_idempotent.
Qed.

Lemma annotation_contains_keyword_case_witness :
  annotation_contains_keyword robe "rObE"
  = annotation_contains_keyword robe "ROBE" /\
  annotation_contains_keyword robe (Str.lower "rObE")
  = annotation_contains_keyword robe "rObE".
Proof.
  apply (annotation_contains_keyword_case robe "rObE" "ROBE").
  reflexivity.
Defined.



(** ** Traversal *)

(** X10. Whatever the server answers, when the traversal returns, its
    results are the annotations received that contain the keyword, in the
    order received: every result contains the keyword and was listed. *)
Theorem keyword_search_results (api : server) (collection : Z)
    (keyword : string) (results : list annotation) :
  keyword_search api collection keyword = Ok results ->
  results = List.filter (fun a => annotation_contains_keyword a keyword)
                        (received api collection) /\
  Forall (fun a => annotation_contains_keyword a keyword = true /\
                   In a (received api collection)) results.
Proof.
  intros H. apply PipelineFacts.keyword_search_Ok in H. split; [exact H |].
  subst results. apply Forall_forall. intros a Ha.
  apply list_elem_of_In, filter_In in Ha as [Hin Hk]. now split.
Qed.

Lemma keyword_search_results_witness :
  [robe; fold]
  = List.filter (fun a => annotation_contains_keyword a "robe")
                (received (demo_server 200) 11) /\
  Forall (fun a => annotation_contains_keyword a "robe" = true /\
                   In a (received (demo_server 200) 11)) [robe; fold].
Proof.
  apply (keyword_search_results (demo_server 200) 11 "robe" [robe; fold]).
  reflexivity.
Defined.

(** X11. A failure of the transport is not skipped as a failed status is:
    when the listing of the annotation sets of an image set raises, the
    whole traversal raises the same exception, and the results of the image
    sets before it are lost. *)
Theorem keyword_search_transport_failure (api : server) (collection : Z)
    (keyword : string) (r : response (listing ref))
    (before after : list ref) (broken : ref)
    (results : list annotation) (e : string) :
  image_sets_of api collection = Ok r ->
  status_code r = 200 ->
  body r = Some (Items (before ++ broken :: after)) ->
  image_sets_loop api keyword (map inl before) [] = Ok results ->
  annotation_sets_of api (ref_id broken) = Raise e ->
  keyword_search api collection keyword = Raise e.
Proof.
  intros E Hs Hb Hbefore Hbroken. unfold keyword_search, json.
  rewrite E, bind_Ok, Hs, Hb. change (200 =? 200) with true. cbv iota.
  rewrite bind_Ok. cbn [elements]. rewrite map_app.
  rewrite PipelineFacts.image_sets_loop_app, Hbefore, bind_Ok.
  cbn [map image_sets_loop element_id]. now rewrite bind_Ok, Hbroken.
Qed.

Lemma keyword_search_transport_failure_witness :
  keyword_search
    (with_broken_annotation_sets (demo_server 200) 31 "ConnectionError")
    11 "robe"
  = Raise "ConnectionError".
Proof.
  apply (keyword_search_transport_failure
           (with_broken_annotation_sets (demo_server 200) 31 "ConnectionError")
           11 "robe"
           {| status_code := 200;
              body := Some (Items [{| ref_id := 30 |}; {| ref_id := 31 |}]) |}
           [{| ref_id := 30 |}] [] {| ref_id := 31 |} []);
    reflexivity.
Defined.

(** ** Loading the images *)

Module LoadFacts.

Section Load.
Variable imdecode : string -> result (option ndarray).
Variable api : server.

(** One round of the loop: the dictionary is unchanged, or has one more
    entry, at the image id of the annotation, which it did not have, with
    the decoded download of the image in full size; the dictionary is
    unchanged when the id is a key, or when one of the two fetches
    fails. *)
Lemma load_images_cons (a : annotation) (results : list annotation)
    (images0 images : gmap Z (option ndarray)) :
  load_images imdecode api (a :: results) images0 = Ok images ->
  exists images1,
    load_images imdecode api results images1 = Ok images /\
    (images1 = images0 /\
     (is_Some (images0 !! image_id a) \/ fetch_fails api (image_id a))
     \/
     exists r d r' info content v,
       images0 !! image_id a = None /\
       image_of api (image_id a) = Ok r /\ status_code r = 200 /\
       body r = Some d /\
       info_of api (iiif_url d +:+ "/info.json") = Ok r' /\
       status_code r' = 200 /\ body r' = Some info /\
       content_of api (iiif_url d +:+ "/full/" +:+ str_of_int (width info)
                       +:+ "," +:+ str_of_int (height info)
                       +:+ "/0/default.jpg") = Ok content /\
       imdecode content = Ok v /\
       images1 = <[image_id a := v]> images0).
Proof.
  cbn [load_images]. intros H. cbv zeta in H.
  apply bind_Ok_inv in H as (images1 & Hstep & Hrest).
  exists images1. split; [exact Hrest |]. clear Hrest.
  destruct (images0 !! image_id a) as [oi|] eqn:Ea.
  { injection Hstep as <-. left. split. { reflexivity. } left. now exists oi. }
  destruct (image_of api (image_id a)) as [r|e] eqn:Er; [| discriminate].
  rewrite bind_Ok in Hstep.
  destruct (Z.eqb_spec (status_code r) 200) as [Hs|Hs].
  2:{ injection Hstep as <-. left. split; [reflexivity |].
      right. left. now exists r. }
  destruct (json r) as [d|e] eqn:Hj; [| discriminate].
  assert (Hb : body r = Some d)
    by (unfold json in Hj; destruct (body r); congruence).
  rewrite bind_Ok in Hstep. cbv zeta in Hstep.
  destruct (info_of api _) as [r'|e] eqn:Er'; [| discriminate].
  rewrite bind_Ok in Hstep.
  destruct (Z.eqb_spec (status_code r') 200) as [Hs'|Hs'].
  2:{ injection Hstep as <-. left. split; [reflexivity |].
      right. right. exists r, d. repeat split; try assumption.
      now exists r'. }
  destruct (json r') as [info|e] eqn:Hj'; [| discriminate].
  assert (Hb' : body r' = Some info)
    by (unfold json in Hj'; destruct (body r'); congruence).
  rewrite bind_Ok in Hstep. cbv zeta in Hstep.
  unfold load_image_from_url in Hstep.
  destruct (content_of api _) as [content|e] eqn:Ec; [| discriminate].
  rewrite bind_Ok in Hstep.
  destruct (imdecode content) as [v|e] eqn:Ed; [| discriminate].
  rewrite bind_Ok in Hstep. injection Hstep as <-.
  right. exists r, d, r', info, content, v. repeat split; assumption.
Qed.

(** An entry of the dictionary is never replaced. *)
Lemma load_images_keeps (results : list annotation)
    (images0 images : gmap Z (option ndarray)) (i : Z) (v : option ndarray) :
  images0 !! i = Some v ->
  load_images imdecode api results images0 = Ok images ->
  images !! i = Some v.
Proof.
  revert images0. induction results as [|a results IH]; intros images0 H0.
  - now intros [= <-].
  - intros H. apply load_images_cons in H as (images1 & Hrest & Hstep).
    apply (IH images1); [| exact Hrest].
    destruct Hstep as [[-> _] | (r & d & r' & info & content & w & Hn & _ & _
      & _ & _ & _ & _ & _ & _ & ->)]; [exact H0 |].
    rewrite lookup_insert_ne; [exact H0 |]. intros <-. congruence.
Qed.

(** The keys of the dictionary are image ids of the annotations. *)
Lemma load_images_dom (results : list annotation)
    (images0 images : gmap Z (option ndarray)) (i : Z) :
  load_images imdecode api results images0 = Ok images ->
  is_Some (images !! i) ->
  is_Some (images0 !! i) \/ exists a, In a results /\ image_id a = i.
Proof.
  revert images0. induction results as [|a results IH]; intros images0.
  - intros [= <-]. now left.
  - intros H Hi. apply load_images_cons in H as (images1 & Hrest & Hstep).
    destruct (IH images1 Hrest Hi) as [H1 | (b & Hb & <-)].
    + destruct Hstep as [[-> _] | (r & d & r' & info & content & w & _ & _ & _
        & _ & _ & _ & _ & _ & _ & ->)]; [now left |].
      destruct (decide (image_id a = i)) as [<- | Hne].
      * right. exists a. split; [now left | reflexivity].
      * rewrite lookup_insert_ne in H1 by exact Hne. now left.
    + right. exists b. split; [now right | reflexivity].
Qed.

(** A key that is missing after the loop is that of an image whose fetch
    failed. *)
Lemma load_images_missing (results : list annotation)
    (images0 images : gmap Z (option ndarray)) (a : annotation) :
  In a results ->
  load_images imdecode api results images0 = Ok images ->
  images !! image_id a = None ->
  fetch_fails api (image_id a).
Proof.
  revert images0. induction results as [|b results IH]; intros images0 Hin;
    [destruct Hin |].
  intros H Hnone. apply load_images_cons in H as (images1 & Hrest & Hstep).
  destruct (decide (image_id b = image_id a)) as [Heq | Hne].
  - rewrite Heq in Hstep.
    destruct Hstep as [[-> [[v Hv] | Hf]] | (r & d & r' & info & content & w
      & _ & _ & _ & _ & _ & _ & _ & _ & _ & ->)].
    + rewrite (load_images_keeps _ _ _ _ _ Hv Hrest) in Hnone. discriminate.
    + exact Hf.
    + rewrite (load_images_keeps _ _ _ _ w (lookup_insert_eq _ _ _) Hrest)
        in Hnone. discriminate.
  - destruct Hin as [-> | Hin]; [congruence |].
    exact (IH images1 Hin Hrest Hnone).
Qed.

(** What the loop stores for an image whose two fetches succeed. *)
Lemma load_images_stored (results : list annotation)
    (images0 images : gmap Z (option ndarray)) (a : annotation)
    (r : response image_data) (d : image_data)
    (r' : response image_info) (info : image_info) :
  In a results ->
  images0 !! image_id a = None ->
  image_of api (image_id a) = Ok r -> status_code r = 200 ->
  body r = Some d ->
  info_of api (iiif_url d +:+ "/info.json") = Ok r' -> status_code r' = 200 ->
  body r' = Some info ->
  load_images imdecode api results images0 = Ok images ->
  exists content v,
    content_of api (iiif_url d +:+ "/full/" +:+ str_of_int (width info)
                    +:+ "," +:+ str_of_int (height info)
                    +:+ "/0/default.jpg") = Ok content /\
    imdecode content = Ok v /\
    images !! image_id a = Some v.
Proof.
  intros Hin H0 Er Hs Hb Er' Hs' Hb'. revert images0 H0.
  assert (Hok : ~ fetch_fails api (image_id a)).
  { intros [(x & Ex & Hx) | (x & dx & Ex & _ & Hbx & x' & Ex' & Hx')].
    - congruence.
    - rewrite Er in Ex. injection Ex as <-.
      rewrite Hb in Hbx. injection Hbx as <-. congruence. }
  induction results as [|b results IH]; intros images0 H0; [destruct Hin |].
  intros H. apply load_images_cons in H as (images1 & Hrest & Hstep).
  destruct (decide (image_id b = image_id a)) as [Heq | Hne].
  - rewrite Heq in Hstep.
    destruct Hstep as [[_ [[v Hv] | Hf]] | (r1 & d1 & r1' & info1 & content & w
      & _ & Er1 & _ & Hb1 & Er1' & _ & Hb1' & Hc & Hd & ->)].
    + congruence.
    + contradiction.
    + rewrite Er in Er1. injection Er1 as <-.
      rewrite Hb in Hb1. injection Hb1 as <-.
      rewrite Er' in Er1'. injection Er1' as <-.
      rewrite Hb' in Hb1'. injection Hb1' as <-.
      exists content, w. repeat split; try assumption.
      exact (load_images_keeps _ _ _ _ w (lookup_insert_eq _ _ _) Hrest).
  - destruct Hin as [-> | Hin]; [congruence |].
    apply (IH Hin images1); [| exact Hrest].
    destruct Hstep as [[-> _] | (r1 & d1 & r1' & info1 & content & w
      & _ & _ & _ & _ & _ & _ & _ & _ & _ & ->)]; [exact H0 |].
    now rewrite lookup_insert_ne.
Qed.

End Load.

End LoadFacts.

(** X12. The loop that loads the images only adds to the dictionary: an
    entry it finds or makes is never replaced, and every key it adds is the
    image id of one of the annotations. *)
Theorem load_images_invariant
    (imdecode : string -> result (option ndarray)) (api : server)
    (results : list annotation) (images0 images : gmap Z (option ndarray)) :
  load_images imdecode api results images0 = Ok images ->
  (forall i v, images0 !! i = Some v -> images !! i = Some v) /\
  (forall i, is_Some (images !! i) ->
     is_Some (images0 !! i) \/ exists a, In a results /\ image_id a = i).
Proof.
  intros H. split.
  - intros i v Hv. exact (LoadFacts.load_images_keeps _ _ _ _ _ _ _ Hv H).
  - intros i. exact (LoadFacts.load_images_dom _ _ _ _ _ _ H).
Qed.

Lemma load_images_invariant_witness :
  (forall i v,
     (<[7 := None]> ∅ : gmap Z (option ndarray)) !! i = Some v ->
     (<[8 := Some white_20x20]> (<[7 := None]> ∅)
        : gmap Z (option ndarray)) !! i = Some v) /\
  (forall i,
     is_Some ((<[8 := Some white_20x20]> (<[7 := None]> ∅)
                 : gmap Z (option ndarray)) !! i) ->
     is_Some ((<[7 := None]> ∅ : gmap Z (option ndarray)) !! i) \/
     exists a, In a [robe; fold] /\ image_id a = i).
Proof.
  apply (load_images_invariant demo_imdecode (demo_server 200) [robe; fold]
           (<[7 := None]> ∅) (<[8 := Some white_20x20]> (<[7 := None]> ∅))).
  vm_compute. reflexivity.
Defined.

(** X13. After the images of the results are loaded into an empty
    dictionary, an annotation of the results whose image id is not a key is
    one whose image could not be fetched: the fetch of the image, or of its
    [info.json], had another status than 200. *)
Theorem load_images_missing_key
    (imdecode : string -> result (option ndarray)) (api : server)
    (results : list annotation) (images : gmap Z (option ndarray))
    (a : annotation) :
  In a results ->
  load_images imdecode api results ∅ = Ok images ->
  images !! image_id a = None ->
  fetch_fails api (image_id a).
Proof. apply LoadFacts.load_images_missing. Qed.

Lemma load_images_missing_key_witness :
  fetch_fails (demo_server 404) (image_id fold).
Proof.
  apply (load_images_missing_key demo_imdecode (demo_server 404) [robe; fold]
           (<[7 := Some white_20x20]> ∅) fold).
  - right. left. reflexivity.
  - vm_compute. reflexivity.
  - reflexivity.
Defined.

(** X14. For an annotation of the results whose image and [info.json] are
    both fetched with status 200, the dictionary holds, under the image id,
    what [imdecode] makes of the download of the image in the full size
    that [info.json] gives: [{iiif_url}/full/{width},{height}/0/default.jpg]. *)
Theorem load_images_full_size
    (imdecode : string -> result (option ndarray)) (api : server)
    (results : list annotation) (images : gmap Z (option ndarray))
    (a : annotation) (r : response image_data) (d : image_data)
    (r' : response image_info) (info : image_info) :
  In a results ->
  image_of api (image_id a) = Ok r -> status_code r = 200 ->
  body r = Some d ->
  info_of api (iiif_url d +:+ "/info.json") = Ok r' -> status_code r' = 200 ->
  body r' = Some info ->
  load_images imdecode api results ∅ = Ok images ->
  exists content v,
    content_of api (iiif_url d +:+ "/full/" +:+ str_of_int (width info)
                    +:+ "," +:+ str_of_int (height info)
                    +:+ "/0/default.jpg") = Ok content /\
    imdecode content = Ok v /\
    images !! image_id a = Some v.
Proof.
  intros Hin. apply LoadFacts.load_images_stored; [exact Hin |].
  apply lookup_empty.
Qed.

Lemma load_images_full_size_witness :
  exists content v,
    content_of (demo_server 200)
      ("https://iiif.example/7" +:+ "/full/" +:+ str_of_int 20 +:+ "," +:+
       str_of_int 20 +:+ "/0/default.jpg") = Ok content /\
    demo_imdecode content = Ok v /\
    (<[8 := Some white_20x20]> (<[7 := Some white_20x20]> ∅)
       : gmap Z (option ndarray)) !! 7 = Some v.
Proof.
  apply (load_images_full_size demo_imdecode (demo_server 200) [robe; fold]
           (<[8 := Some white_20x20]> (<[7 := Some white_20x20]> ∅)) robe
           {| status_code := 200;
              body := Some {| iiif_url := "https://iiif.example/7" |} |}
           {| iiif_url := "https://iiif.example/7" |}
           {| status_code := 200;
              body := Some {| width := 20; height := 20 |} |}
           {| width := 20; height := 20 |}).
  - left. reflexivity.
  - reflexivity.
  - reflexivity.
  - reflexivity.
  - reflexivity.
  - reflexivity.
  - reflexivity.
  - vm_compute. reflexivity.
Defined.

(** ** Table builder *)

Module TableMore.

Lemma balanced_append_row (t : table_data) (cell : string) (a : annotation) :
  balanced t -> balanced (append_row t cell a).
Proof.
  unfold balanced, append_row. cbn [Image Title Tags Notes Line_Color].
  rewrite !length_app. simpl. lia.
Qed.

Lemma length_frame_rows (c1 c2 c3 c4 c5 : list string) :
  length c2 = length c1 -> length c3 = length c1 ->
  length c4 = length c1 -> length c5 = length c1 ->
  length (frame_rows c1 c2 c3 c4 c5) = length c1.
Proof.
  revert c2 c3 c4 c5.
  induction c1 as [|x1 c1 IH]; intros [|x2 c2] [|x3 c3] [|x4 c4] [|x5 c5];
    simpl; try discriminate; try reflexivity.
  intros [= H2] [= H3] [= H4] [= H5]. now rewrite IH.
Qed.

Lemma DataFrame_balanced (t : table_data) :
  balanced t ->
  exists df, DataFrame t = Ok df /\ length (rows df) = length (Image t).
Proof.
  intros (H2 & H3 & H4 & H5). unfold DataFrame.
  rewrite H2, H3, H4, H5, Nat.eqb_refl. simpl.
  eexists. split; [reflexivity |]. simpl.
  now apply length_frame_rows.
Qed.

Section Loops.
Variable covers : nat -> nat -> list (list (Z * Z)) -> nat -> nat -> bool.
Variable imencode_base64 : ndarray -> result string.

Lemma table_loop_balanced (image : ndarray)
    (annotations : list (annotation + string)) (t t' : table_data) :
  balanced t ->
  table_loop covers imencode_base64 image annotations t = Ok t' ->
  balanced t'.
Proof.
  revert t. induction annotations as [|[a|k] annotations IH]; intros t Hb.
  - now intros [= <-].
  - cbn [table_loop]. intros H.
    apply bind_Ok_inv in H as (cell & _ & H).
    eapply IH; [| exact H]. now apply balanced_append_row.
  - discriminate.
Qed.

Lemma search_table_loop_balanced (images : gmap Z (option ndarray))
    (results : list annotation) (t t' : table_data) :
  balanced t ->
  search_table_loop covers imencode_base64 images results t = Ok t' ->
  balanced t'.
Proof.
  revert t. induction results as [|a results IH]; intros t Hb.
  - now intros [= <-].
  - cbn [search_table_loop].
    destruct (images !! image_id a) as [[image|]|]; [| apply IH; exact Hb |
      discriminate].
    intros H. apply bind_Ok_inv in H as (cell & _ & H).
    eapply IH; [| exact H]. now apply balanced_append_row.
Qed.

(** The exceptions of an image cell. *)
Lemma image_cell_raises (image : ndarray) (a : annotation) (e : string) :
  image_cell covers imencode_base64 image a = Raise e ->
  Str.contains "<polygon" (selector a) = true /\
  ((e = "IndexError" \/ e = "ValueError" \/ e = "OverflowError") \/
   exists crop, imencode_base64 crop = Raise e).
Proof.
  unfold image_cell. cbv zeta.
  destruct (Str.contains "<polygon" (selector a)); [| discriminate].
  intros H. split; [reflexivity |].
  apply bind_Raise_inv in H as [H | (points & _ & H)].
  { left. unfold extract_polygon_points in H.
    destruct (Str.split dquote (selector a)) as [|x [|value rest]];
      try (injection H as <-; now left).
    right. exact (ExtractorFacts.parse_points_raises _ _ _ H). }
  apply bind_Raise_inv in H as [H | (crop & _ & H)].
  { left. apply CropperFacts.crop_image_raises in H as [_ ->]. auto. }
  right. exists crop. unfold image_to_html in H.
  apply bind_Raise_inv in H as [H | (text & _ & H)];
    [exact H | discriminate].
Qed.

End Loops.

End TableMore.

(** X15. The five lists of [table_data] grow together: after either table
    loop they have one length, so that [pd.DataFrame] never fails on them,
    and the frame has one row for each image cell. *)
Theorem table_columns_balanced
    (covers : nat -> nat -> list (list (Z * Z)) -> nat -> nat -> bool)
    (imencode_base64 : ndarray -> result string)
    (image : ndarray) (annotations : list (annotation + string))
    (images : gmap Z (option ndarray)) (results : list annotation)
    (t t' : table_data) :
  balanced t ->
  table_loop covers imencode_base64 image annotations t = Ok t' \/
  search_table_loop covers imencode_base64 images results t = Ok t' ->
  balanced t' /\
  exists df, DataFrame t' = Ok df /\ length (rows df) = length (Image t').
Proof.
  intros Hb H.
  assert (Hb' : balanced t').
  { destruct H as [H | H].
    - exact (TableMore.table_loop_balanced _ _ _ _ _ _ Hb H).
    - exact (TableMore.search_table_loop_balanced _ _ _ _ _ _ Hb H). }
  split; [exact Hb' |]. now apply TableMore.DataFrame_balanced.
Qed.

Lemma table_columns_balanced_witness :
  balanced (extend empty_table [demo_img] [robe]) /\
  exists df,
    DataFrame (extend empty_table [demo_img] [robe]) = Ok df /\
    length (rows df) = length (Image (extend empty_table [demo_img] [robe])).
Proof.
  apply (table_columns_balanced closed_polygon_covers demo_imencode
           white_20x20 [] demo_images [robe; fold] empty_table
           (extend empty_table [demo_img] [robe])).
  - repeat split.
  - right. vm_compute. reflexivity.
Defined.

(** X16. The image cell of an annotation raises only when its selector
    holds a polygon, and then one of the exceptions of the extractor and of
    the cropper, [IndexError], [ValueError] or [OverflowError], or the
    exception of the JPEG encoder on the crop. *)
Theorem image_cell_exceptions
    (covers : nat -> nat -> list (list (Z * Z)) -> nat -> nat -> bool)
    (imencode_base64 : ndarray -> result string)
    (image : ndarray) (a : annotation) (e : string) :
  image_cell covers imencode_base64 image a = Raise e ->
  Str.contains "<polygon" (selector a) = true /\
  ((e = "IndexError" \/ e = "ValueError" \/ e = "OverflowError") \/
   exists crop, imencode_base64 crop = Raise e).
Proof. apply TableMore.image_cell_raises. Qed.

Lemma image_cell_exceptions_witness :
  Str.contains "<polygon"
    (selector {| image_id := 7; selector := svg_polygon "3,3";
                 fields := fields halo |}) = true /\
  (("error" = "IndexError" \/ "error" = "ValueError" \/
    "error" = "OverflowError") \/
   exists crop, demo_imencode crop = Raise "error").
Proof.
  apply (image_cell_exceptions closed_polygon_covers demo_imencode white_20x20
           {| image_id := 7; selector := svg_polygon "3,3";
              fields := fields halo |} "error").
  vm_compute. reflexivity.
Defined.

(** X17. The annotation-table notebook takes the first image of image set
    30: when the listing of the images is an empty array it raises
    [IndexError], and when it is an object, as the payload of an error, it
    raises [KeyError]. *)
Theorem annotation_table_notebook_first_image
    (covers : nat -> nat -> list (list (Z * Z)) -> nat -> nat -> bool)
    (imdecode : string -> result (option ndarray))
    (imencode_base64 : ndarray -> result string)
    (api : server) (r0 r1 : response (listing ref))
    (v0 v1 : listing ref) (r2 : response (listing image_data)) :
  collections_of api = Ok r0 -> body r0 = Some v0 ->
  image_sets_of api 11 = Ok r1 -> body r1 = Some v1 ->
  images_of api 30 = Ok r2 ->
  (body r2 = Some (Items []) ->
   annotation_table_notebook covers imdecode imencode_base64 api
   = Raise "IndexError") /\
  (forall keys,
     body r2 = Some (Object keys) ->
     annotation_table_notebook covers imdecode imencode_base64 api
     = Raise "KeyError").
Proof.
  intros E0 H0 E1 H1 E2. unfold annotation_table_notebook, json.
  rewrite E0, bind_Ok, H0, bind_Ok, E1, bind_Ok, H1, bind_Ok, E2, bind_Ok.
  split; [intros -> | intros keys ->]; reflexivity.
Qed.

Lemma annotation_table_notebook_first_image_witness :
  annotation_table_notebook closed_polygon_covers demo_imdecode demo_imencode
    (with_images_of (demo_server 200)
       (Ok {| status_code := 200; body := Some (Items []) |}))
  = Raise "IndexError".
Proof.
  refine (proj1 (annotation_table_notebook_first_image closed_polygon_covers
              demo_imdecode demo_imencode
              (with_images_of (demo_server 200)
                 (Ok {| status_code := 200; body := Some (Items []) |}))
              {| status_code := 200;
                 body := Some (Items [{| ref_id := 11 |}]) |}
              {| status_code := 200;
                 body := Some (Items [{| ref_id := 30 |};
                                      {| ref_id := 31 |}]) |}
              (Items [{| ref_id := 11 |}])
              (Items [{| ref_id := 30 |}; {| ref_id := 31 |}])
              {| status_code := 200; body := Some (Items []) |}
              _ _ _ _ _) eq_refl); reflexivity.
Defined.

(** X18. A keyword that no annotation contains gives an empty table, of the
    five columns and no row, and not an error. *)
Theorem keyword_search_table_no_match
    (covers : nat -> nat -> list (list (Z * Z)) -> nat -> nat -> bool)
    (imdecode : string -> result (option ndarray))
    (imencode_base64 : ndarray -> result string)
    (api : server) (collection : Z) (keyword : string) :
  keyword_search api collection keyword = Ok [] ->
  keyword_search_table covers imdecode imencode_base64 api collection keyword
  = Ok {| columns := header; rows := [] |}.
Proof.
  intros H. unfold keyword_search_table. now rewrite H.
Qed.

Lemma keyword_search_table_no_match_witness :
  keyword_search_table closed_polygon_covers demo_imdecode demo_imencode
                       (demo_server 200) 11 "dragon"
  = Ok {| columns := header; rows := [] |}.
Proof.
  apply (keyword_search_table_no_match closed_polygon_covers demo_imdecode
           demo_imencode (demo_server 200) 11 "dragon").
  reflexivity.
Defined.

(** X19. An image cell is the empty string exactly for a selector without
    a polygon: the cell of a cropped image is never empty. *)
Theorem image_cell_empty
    (covers : nat -> nat -> list (list (Z * Z)) -> nat -> nat -> bool)
    (imencode_base64 : ndarray -> result string)
    (image : ndarray) (a : annotation) (cell : string) :
  image_cell covers imencode_base64 image a = Ok cell ->
  (cell = EmptyString <-> Str.contains "<polygon" (selector a) = false).
Proof.
  unfold image_cell. cbv zeta.
  destruct (Str.contains "<polygon" (selector a)).
  - intros H.
    apply bind_Ok_inv in H as (points & _ & H).
    apply bind_Ok_inv in H as (crop & _ & H).
    unfold image_to_html in H.
    apply bind_Ok_inv in H as (text & _ & H).
    injection H as <-. split; discriminate.
  - intros [= <-]. split; reflexivity.
Qed.

Lemma image_cell_empty_witness :
  demo_img = EmptyString <->
  Str.contains "<polygon" (selector robe) = false.
Proof.
  apply (image_cell_empty closed_polygon_covers demo_imencode white_20x20
           robe demo_img).
  vm_compute. reflexivity.
Defined.
